(** * The ApiCallsRegistry subgraph mappings

    A shallow embedding of the two event handlers of the subgraph
    (src/api-calls-registry.ts and subgraph/src/mapping.ts), of the
    test-event builder, and of the parts of the graph-ts runtime they call:
    byte arrays, big integers, dynamic values, entities and the store. *)

From Stdlib Require Import ZArith Ascii String Strings.Byte List Lia.
From stdpp Require Import gmap strings list fin_maps pretty.

Local Open Scope Z_scope.

(** ** The graph-ts runtime *)

(** The handlers are written against the graph-ts runtime ([Bytes],
    [BigInt], [ethereum.Event], [Entity], [store]) and the tests against
    matchstick; neither is part of the repository. This module gives the
    calls the handlers make the behaviour those libraries define for them. *)

Module GraphTs.

(** [Bytes] (and [Address], a [Bytes] subclass) is a byte array of any
    length; [BigInt] is an arbitrary-precision signed integer. *)
Definition Bytes := list byte.
Definition Address := Bytes.
Definition BigInt := Z.

(** The failures the runtime can stop a handler with. *)
Inductive Abort :=
| Overflow
| IndexOutOfRange
| AssertionFailed
| StoreUnavailable.

Definition Result (A : Type) : Type := (Abort + A)%type.

Definition and_then {A B} (r : Result A) (k : A -> Result B) : Result B :=
  match r with
  | inr a => k a
  | inl err => inl err
  end.

(** [x as u8]: the low eight bits of an integer. *)
Definition as_u8 (x : Z) : byte :=
  match Byte.of_N (Z.to_N (x mod 256)) with
  | Some b => b
  | None => x00
  end.

(** [ByteArray.fromI32]: the four bytes of a 32-bit integer, lowest first. *)
Definition fromI32 (x : Z) : Bytes :=
  [as_u8 x; as_u8 (Z.shiftr x 8); as_u8 (Z.shiftr x 16); as_u8 (Z.shiftr x 24)].

(** [Bytes.concatI32]: [this.concat(ByteArray.fromI32(other))]. *)
Definition concatI32 (this : Bytes) (other : Z) : Bytes := this ++ fromI32 other.

(** A 32-bit pattern read as a signed integer. *)
Definition wrap_i32 (x : Z) : Z := (x + 2 ^ 31) mod 2 ^ 32 - 2 ^ 31.

(** [BigInt.toI32]: the low four bytes of the two's-complement form read
    as a 32-bit integer, after an assertion ("overflow converting ... to
    i32") that every further byte is sign padding, which is so for the
    values from [- 2 ^ 32] up to [2 ^ 32]; a value that fits 32 bits comes
    back as it is. *)
Definition toI32 (x : BigInt) : Result Z :=
  if (- 2 ^ 32 <=? x) && (x <? 2 ^ 32) then inr (wrap_i32 x) else inl Overflow.

(** [BigInt.toString]: the decimal numeral. *)
Definition BigInt_toString (x : BigInt) : string := pretty x.

(** Lower-case hexadecimal digits. *)
Definition hex_digit (n : N) : ascii :=
  match String.get (N.to_nat n) "0123456789abcdef" with
  | Some c => c
  | None => "0"%char
  end.

Fixpoint hex_digits (b : Bytes) : string :=
  match b with
  | [] => EmptyString
  | x :: rest =>
      String (hex_digit (Byte.to_N x / 16))
        (String (hex_digit (Byte.to_N x mod 16)) (hex_digits rest))
  end.

(** [Bytes.toHex] and [Bytes.toHexString]: ["0x"] and two digits a byte. *)
Definition toHex (b : Bytes) : string := "0x" +:+ hex_digits b.
Definition toHexString (b : Bytes) : string := toHex b.

(** [ethereum.Value]: a decoded event parameter, with the kind assertions
    of its accessors. *)
Inductive EthValue :=
| EthAddress (a : Address)
| EthBytes (b : Bytes)
| EthInt (i : BigInt)
| EthUint (i : BigInt)
| EthBool (b : bool)
| EthString (s : string).

Definition EthValue_toString (v : EthValue) : Result string :=
  match v with
  | EthString s => inr s
  | _ => inl AssertionFailed
  end.

Definition EthValue_toAddress (v : EthValue) : Result Address :=
  match v with
  | EthAddress a => inr a
  | _ => inl AssertionFailed
  end.

(** [ethereum.Value.fromString], and [ethereum.Value.fromAddress] with its
    assertion that the address has exactly 20 bytes. *)
Definition EthValue_fromString (s : string) : EthValue := EthString s.

Definition EthValue_fromAddress (address : Address) : Result EthValue :=
  if (length address =? 20)%nat then inr (EthAddress address)
  else inl AssertionFailed.

Record EventParam := { name : string; value : EthValue }.

Record Block := { number : BigInt; timestamp : BigInt }.

Record Transaction := { hash : Bytes }.

(** [ethereum.Event], with the fields the handlers and the builder touch. *)
Record Event := {
  address : Address;
  logIndex : BigInt;
  block : Block;
  transaction : Transaction;
  parameters : list EventParam
}.

(** [event.parameters[i]]: an array read, which stops out of range. *)
Definition parameter (event : Event) (i : nat) : Result EventParam :=
  match parameters event !! i with
  | Some p => inr p
  | None => inl IndexOutOfRange
  end.

(** The store's [Value] and [Entity] (a map from field names to values). *)
Inductive Value :=
| VString (s : string)
| VBytes (b : Bytes)
| VBigInt (i : BigInt)
| VNull.

Abbreviation Entity := (gmap string Value).

(** The store: entities by entity type and id. *)
Abbreviation Store := (gmap (string * string) Entity).

(** A handler runs against the ambient store and either finishes or is
    stopped; the store it leaves is the second component. *)
Definition Handler (A : Type) : Type := Store -> Result A * Store.

Definition ret {A} (a : A) : Handler A := fun s => (inr a, s).

Definition bind {A B} (m : Handler A) (k : A -> Handler B) : Handler B :=
  fun s =>
    match m s with
    | (inr a, s') => k a s'
    | (inl err, s') => (inl err, s')
    end.

Definition lift {A} (r : Result A) : Handler A := fun s => (r, s).

(** [store.set(entity, id, data)] and [store.get(entity, id)]. *)
Definition store_set (ty id : string) (data : Entity) : Handler unit :=
  fun s => (inr tt, <[(ty, id) := data]> s).

Definition store_get (ty id : string) (s : Store) : option Entity := s !! (ty, id).

(** matchstick's [clearStore] and [assert.entityCount]. *)
Definition clearStore (s : Store) : Store := ∅.

Definition entityCount (ty : string) (s : Store) : nat :=
  size (filter (fun kv => kv.1.1 = ty) s).

End GraphTs.

Export GraphTs.

Notation "'let!' x ':=' m 'in' k" := (bind m (fun x => k))
  (at level 10, x name, m at level 100, k at level 200).

(** ** The generated bindings *)

Module Generated.

(** Modelled from the spec: the accessors of [event.params], from the
    generated contract bindings, which are not among the sources. The
    handler reads the named parameters off the generic event object with
    no decode step of its own; the accessors read [event.parameters] in the
    order in which [createApiCallProvedEvent] fills it (callId, requestHash,
    responseHash, emitter) and convert each value by its kind. *)
Definition params_callId (event : Event) : Result string :=
  and_then (parameter event 0) (fun p => EthValue_toString (value p)).

Definition params_requestHash (event : Event) : Result string :=
  and_then (parameter event 1) (fun p => EthValue_toString (value p)).

Definition params_responseHash (event : Event) : Result string :=
  and_then (parameter event 2) (fun p => EthValue_toString (value p)).

Definition params_emitter (event : Event) : Result Address :=
  and_then (parameter event 3) (fun p => EthValue_toAddress (value p)).

(** Modelled from the spec: the entity classes [ApiCallProved] and
    [ApiCall] of the generated schema, which are not among the sources.
    An entity is created with its id, each property assignment sets the
    field of that name, and [save] records the entity in the store under
    its type and id (a [Bytes] id as its hexadecimal string), such that a
    later [get] with the same id returns the same field values. *)
Definition ApiCallProved_new (id : Bytes) : Entity := {[ "id"%string := VBytes id ]}.

Definition ApiCall_new (id : string) : Entity := {[ "id"%string := VString id ]}.

Definition set_field (field : string) (v : Value) (entity : Entity) : Entity :=
  <[field := v]> entity.

Definition ApiCallProved_save (entity : Entity) : Handler unit :=
  match entity !! "id"%string with
  | Some (VBytes id) => store_set "ApiCallProved" (toHexString id) entity
  | _ => lift (inl AssertionFailed)
  end.

Definition ApiCall_save (entity : Entity) : Handler unit :=
  match entity !! "id"%string with
  | Some (VString id) => store_set "ApiCall" id entity
  | _ => lift (inl AssertionFailed)
  end.

End Generated.

Export Generated.

(** ** src/api-calls-registry.ts *)

Module ApiCallsRegistry.

(** The id the handler gives the entity:
    [event.transaction.hash.concatI32(event.logIndex.toI32())]. *)
Definition entityId (event : Event) : Result Bytes :=
  and_then (toI32 (logIndex event))
    (fun i => inr (concatI32 (hash (transaction event)) i)).

Definition handleApiCallProved (event : Event) : Handler unit :=
  let! id := lift (entityId event) in
  let entity := ApiCallProved_new id in
  let! callId := lift (params_callId event) in
  let entity := set_field "callId" (VString callId) entity in
  let! requestHash := lift (params_requestHash event) in
  let entity := set_field "requestHash" (VString requestHash) entity in
  let! responseHash := lift (params_responseHash event) in
  let entity := set_field "responseHash" (VString responseHash) entity in
  let! emitter := lift (params_emitter event) in
  let entity := set_field "emitter" (VBytes emitter) entity in
  let entity := set_field "blockNumber" (VBigInt (number (block event))) entity in
  let entity := set_field "blockTimestamp" (VBigInt (timestamp (block event))) entity in
  let entity := set_field "transactionHash" (VBytes (hash (transaction event))) entity in
  ApiCallProved_save entity.

(** The key under which [save] puts the entity of an id. *)
Definition storeKey (id : Bytes) : string * string :=
  ("ApiCallProved"%string, toHexString id).

(** The entity as the handler has built it when it calls [save]. *)
Definition entityOf (e : Event) (id : Bytes) (callId requestHash responseHash : string)
    (emitter : Address) : Entity :=
  set_field "transactionHash" (VBytes (hash (transaction e)))
    (set_field "blockTimestamp" (VBigInt (timestamp (block e)))
      (set_field "blockNumber" (VBigInt (number (block e)))
        (set_field "emitter" (VBytes emitter)
          (set_field "responseHash" (VString responseHash)
            (set_field "requestHash" (VString requestHash)
              (set_field "callId" (VString callId) (ApiCallProved_new id))))))).

(** The one store entry a run writes, when it is not stopped. *)
Definition written (e : Event) : option ((string * string) * Entity) :=
  match entityId e, params_callId e, params_requestHash e,
        params_responseHash e, params_emitter e with
  | inr id, inr c, inr rq, inr rs, inr em =>
      Some (storeKey id, entityOf e id c rq rs em)
  | _, _, _, _, _ => None
  end.

End ApiCallsRegistry.

(** ** subgraph/src/mapping.ts *)

Module Mapping.

(** [event.transaction.hash.toHex() + ":" + event.logIndex.toString()]. *)
Definition entityId (event : Event) : string :=
  toHex (hash (transaction event)) +:+ ":" +:+ BigInt_toString (logIndex event).

Definition handleApiCallProved (event : Event) : Handler unit :=
  let id := entityId event in
  let entity := ApiCall_new id in
  let! callId := lift (params_callId event) in
  let entity := set_field "callId" (VString callId) entity in
  let! requestHash := lift (params_requestHash event) in
  let entity := set_field "requestHash" (VString requestHash) entity in
  let! responseHash := lift (params_responseHash event) in
  let entity := set_field "responseHash" (VString responseHash) entity in
  let! emitter := lift (params_emitter event) in
  let entity := set_field "emitter" (VBytes emitter) entity in
  let entity := set_field "txHash" (VBytes (hash (transaction event))) entity in
  let entity := set_field "blockNumber" (VBigInt (number (block event))) entity in
  let entity := set_field "timestamp" (VBigInt (timestamp (block event))) entity in
  ApiCall_save entity.

Definition storeKey (id : string) : string * string := ("ApiCall"%string, id).

Definition entityOf (e : Event) (id : string) (callId requestHash responseHash : string)
    (emitter : Address) : Entity :=
  set_field "timestamp" (VBigInt (timestamp (block e)))
    (set_field "blockNumber" (VBigInt (number (block e)))
      (set_field "txHash" (VBytes (hash (transaction e)))
        (set_field "emitter" (VBytes emitter)
          (set_field "responseHash" (VString responseHash)
            (set_field "requestHash" (VString requestHash)
              (set_field "callId" (VString callId) (ApiCall_new id))))))).

Definition written (e : Event) : option ((string * string) * Entity) :=
  match params_callId e, params_requestHash e,
        params_responseHash e, params_emitter e with
  | inr c, inr rq, inr rs, inr em =>
      Some (storeKey (entityId e), entityOf e (entityId e) c rq rs em)
  | _, _, _, _ => None
  end.

End Mapping.

(** ** A host that can refuse a write *)

Module Host.

(** [store.set] is a call into the host that runs the mappings, and the
    host may fail it. A handler gives the host the finished entity in this
    one call: a host that refuses the call writes nothing and stops the run
    with [StoreUnavailable]. [host ty id data s] tells whether the host takes
    the write of [data] under [ty] and [id] when the store is [s]. *)
Definition Host : Type := string -> string -> Entity -> Store -> bool.

Definition reliable : Host := fun _ _ _ _ => true.

Definition store_set (host : Host) (ty id : string) (data : Entity) : Handler unit :=
  fun s =>
    if host ty id data s then (inr tt, <[(ty, id) := data]> s)
    else (inl StoreUnavailable, s).

Definition ApiCallProved_save (host : Host) (entity : Entity) : Handler unit :=
  match entity !! "id"%string with
  | Some (VBytes id) => store_set host "ApiCallProved" (toHexString id) entity
  | _ => lift (inl AssertionFailed)
  end.

Definition ApiCall_save (host : Host) (entity : Entity) : Handler unit :=
  match entity !! "id"%string with
  | Some (VString id) => store_set host "ApiCall" id entity
  | _ => lift (inl AssertionFailed)
  end.

(** The handler of src/api-calls-registry.ts on such a host. *)
Definition registry_handleApiCallProved (host : Host) (event : Event) : Handler unit :=
  let! id := lift (ApiCallsRegistry.entityId event) in
  let entity := ApiCallProved_new id in
  let! callId := lift (params_callId event) in
  let entity := set_field "callId" (VString callId) entity in
  let! requestHash := lift (params_requestHash event) in
  let entity := set_field "requestHash" (VString requestHash) entity in
  let! responseHash := lift (params_responseHash event) in
  let entity := set_field "responseHash" (VString responseHash) entity in
  let! emitter := lift (params_emitter event) in
  let entity := set_field "emitter" (VBytes emitter) entity in
  let entity := set_field "blockNumber" (VBigInt (number (block event))) entity in
  let entity := set_field "blockTimestamp" (VBigInt (timestamp (block event))) entity in
  let entity := set_field "transactionHash" (VBytes (hash (transaction event))) entity in
  ApiCallProved_save host entity.

(** The handler of subgraph/src/mapping.ts on such a host. *)
Definition mapping_handleApiCallProved (host : Host) (event : Event) : Handler unit :=
  let id := Mapping.entityId event in
  let entity := ApiCall_new id in
  let! callId := lift (params_callId event) in
  let entity := set_field "callId" (VString callId) entity in
  let! requestHash := lift (params_requestHash event) in
  let entity := set_field "requestHash" (VString requestHash) entity in
  let! responseHash := lift (params_responseHash event) in
  let entity := set_field "responseHash" (VString responseHash) entity in
  let! emitter := lift (params_emitter event) in
  let entity := set_field "emitter" (VBytes emitter) entity in
  let entity := set_field "txHash" (VBytes (hash (transaction event))) entity in
  let entity := set_field "blockNumber" (VBigInt (number (block event))) entity in
  let entity := set_field "timestamp" (VBigInt (timestamp (block event))) entity in
  ApiCall_save host entity.

(** A host that refuses every write. *)
Definition unavailable : Host := fun _ _ _ _ => false.

End Host.

(** ** tests/api-calls-registry-utils.ts *)

Module Utils.

(** [createApiCallProvedEvent], over the event that [newMockEvent()]
    returns: the parameter array is replaced, everything else is kept. The
    builder is stopped by [ethereum.Value.fromAddress] when the emitter has
    not 20 bytes. *)
Definition createApiCallProvedEvent (newMockEvent : Event)
    (callId requestHash responseHash : string) (emitter : Address) : Result Event :=
  let parameters0 := [] in
  let parameters1 :=
    parameters0 ++ [ {| name := "callId"; value := EthValue_fromString callId |} ] in
  let parameters2 :=
    parameters1 ++
      [ {| name := "requestHash"; value := EthValue_fromString requestHash |} ] in
  let parameters3 :=
    parameters2 ++
      [ {| name := "responseHash"; value := EthValue_fromString responseHash |} ] in
  and_then (EthValue_fromAddress emitter) (fun emitterValue =>
    let parameters4 :=
      parameters3 ++ [ {| name := "emitter"; value := emitterValue |} ] in
    inr {| address := address newMockEvent;
           logIndex := logIndex newMockEvent;
           block := block newMockEvent;
           transaction := transaction newMockEvent;
           parameters := parameters4 |}).

End Utils.

(** ** Running a handler *)

Definition result {A} (h : Handler A) (s : Store) : Result A := (h s).1.
Definition exec {A} (h : Handler A) (s : Store) : Store := (h s).2.

(** The events of a feed, handled one after the other; an event whose
    handler is stopped leaves the store as [exec] gives it. *)
Definition processAll (handler : Event -> Handler unit) (events : list Event)
    (s : Store) : Store :=
  foldl (fun s event => exec (handler event) s) s events.

(** ** Concrete events *)

Module Examples.

(** The address that matchstick's [newMockEvent()] uses by default (the
    comment in the test file names it); the mock event carries it as event
    address and as transaction hash, and 1 for its numbers. *)
Definition defaultAddress : Address :=
  [xa1; x60; x81; xf3; x60; xe3; x84; x70; x06; xdb;
   x66; x0b; xae; x1c; x6d; x1b; x2e; x17; xec; x2a].

Definition newMockEvent : Event :=
  {| address := defaultAddress;
     logIndex := 1;
     block := {| number := 1; timestamp := 1 |};
     transaction := {| hash := defaultAddress |};
     parameters := [] |}.

(** The event of the test file's [beforeAll], as [createApiCallProvedEvent]
    returns it. *)
Definition testEmitter : Address :=
  repeat x00 19 ++ [x01].

Definition testEvent : Event :=
  {| address := address newMockEvent;
     logIndex := logIndex newMockEvent;
     block := block newMockEvent;
     transaction := transaction newMockEvent;
     parameters :=
       [ {| name := "callId"; value := EthString "Example string value" |};
         {| name := "requestHash"; value := EthString "Example string value" |};
         {| name := "responseHash"; value := EthString "Example string value" |};
         {| name := "emitter"; value := EthAddress testEmitter |} ] |}.

(** The example scenario of the specification: transaction hash
    [0xaa..01], log index 0, block 100. *)
Definition scenarioEvent : Event :=
  {| address := defaultAddress;
     logIndex := 0;
     block := {| number := 100; timestamp := 1700000000 |};
     transaction := {| hash := repeat xaa 31 ++ [x01] |};
     parameters :=
       [ {| name := "callId"; value := EthString "call-1" |};
         {| name := "requestHash"; value := EthString "req-1" |};
         {| name := "responseHash"; value := EthString "res-1" |};
         {| name := "emitter"; value := EthAddress testEmitter |} ] |}.

(** The same log with other parameters and another block. *)
Definition scenarioEvent' : Event :=
  {| address := defaultAddress;
     logIndex := 0;
     block := {| number := 101; timestamp := 1700000012 |};
     transaction := {| hash := repeat xaa 31 ++ [x01] |};
     parameters :=
       [ {| name := "callId"; value := EthString "call-2" |};
         {| name := "requestHash"; value := EthString "req-2" |};
         {| name := "responseHash"; value := EthString "res-2" |};
         {| name := "emitter"; value := EthAddress defaultAddress |} ] |}.

(** The next log of the same transaction. *)
Definition nextLogEvent : Event :=
  {| address := defaultAddress;
     logIndex := 1;
     block := block scenarioEvent;
     transaction := transaction scenarioEvent;
     parameters := parameters scenarioEvent |}.

(** A log whose emitter parameter is missing. *)
Definition truncatedEvent : Event :=
  {| address := defaultAddress;
     logIndex := 0;
     block := block scenarioEvent;
     transaction := transaction scenarioEvent;
     parameters := take 3 (parameters scenarioEvent) |}.

(** A log whose index does not fit 32 bits. *)
Definition hugeIndexEvent : Event :=
  {| address := defaultAddress;
     logIndex := 2 ^ 32;
     block := block scenarioEvent;
     transaction := transaction scenarioEvent;
     parameters := parameters scenarioEvent |}.

(** A log with a one-byte transaction hash, a negative index and an empty
    emitter address. *)
Definition misshapenEvent : Event :=
  {| address := [];
     logIndex := -1;
     block := {| number := 100; timestamp := 1700000000 |};
     transaction := {| hash := [xaa] |};
     parameters :=
       [ {| name := "callId"; value := EthString "call-1" |};
         {| name := "requestHash"; value := EthString "req-1" |};
         {| name := "responseHash"; value := EthString "res-1" |};
         {| name := "emitter"; value := EthAddress [] |} ] |}.

(** Logs whose index is beyond the signed 32-bit range but within 32 bits
    of zero. *)
Definition wrappingIndexEvent : Event :=
  {| address := defaultAddress;
     logIndex := 2 ^ 31;
     block := block scenarioEvent;
     transaction := transaction scenarioEvent;
     parameters := parameters scenarioEvent |}.

Definition negativeIndexEvent : Event :=
  {| address := defaultAddress;
     logIndex := - 2 ^ 32;
     block := block scenarioEvent;
     transaction := transaction scenarioEvent;
     parameters := parameters scenarioEvent |}.


(** A store with one entity of another id. *)
Definition otherStore : Store :=
  {[ ("ApiCallProved", "0x00")%string := ApiCallProved_new [x00] ]}.

End Examples.

(** ** tests/api-calls-registry.test.ts *)

Module Tests.

(** How matchstick's [assert.fieldEquals] renders a stored value before it
    compares it with the expected string: a string as it is, bytes (and so
    an address) as their hexadecimal string, a big integer as its decimal
    numeral. *)
Definition Value_display (v : Value) : string :=
  match v with
  | VString s => s
  | VBytes b => toHexString b
  | VBigInt i => BigInt_toString i
  | VNull => "null"
  end.

(** [assert.entityCount(entityType, expectedCount)]. *)
Definition assert_entityCount (ty : string) (expected : nat) (s : Store) : bool :=
  bool_decide (entityCount ty s = expected).

(** [assert.fieldEquals(entityType, id, fieldName, expectedVal)]: the
    entity has to be in the store and has to have the field. *)
Definition assert_fieldEquals (ty id field expected : string) (s : Store) : bool :=
  match store_get ty id s with
  | Some entity =>
      match entity !! field with
      | Some v => bool_decide (Value_display v = expected)
      | None => false
      end
  | None => false
  end.

(** [Address.fromString("0x0000000000000000000000000000000000000001")]. *)
Definition emitter : Address := repeat x00 19 ++ [x01].

(** The [beforeAll] hook, over the event that [newMockEvent()] returns. *)
Definition beforeAll (newMockEvent : Event) : Handler unit :=
  let callId := "Example string value"%string in
  let requestHash := "Example string value"%string in
  let responseHash := "Example string value"%string in
  let! newApiCallProvedEvent :=
    lift (Utils.createApiCallProvedEvent newMockEvent
            callId requestHash responseHash emitter) in
  ApiCallsRegistry.handleApiCallProved newApiCallProvedEvent.

(** The [afterAll] hook. *)
Definition afterAll (s : Store) : Store := clearStore s.

(** The test "ApiCallProved created and stored": it passes when each of its
    five assertions holds. *)
Definition test_created_and_stored (s : Store) : bool :=
  assert_entityCount "ApiCallProved" 1 s
  && assert_fieldEquals "ApiCallProved"
       "0xa16081f360e3847006db660bae1c6d1b2e17ec2a-1" "callId"
       "Example string value" s
  && assert_fieldEquals "ApiCallProved"
       "0xa16081f360e3847006db660bae1c6d1b2e17ec2a-1" "requestHash"
       "Example string value" s
  && assert_fieldEquals "ApiCallProved"
       "0xa16081f360e3847006db660bae1c6d1b2e17ec2a-1" "responseHash"
       "Example string value" s
  && assert_fieldEquals "ApiCallProved"
       "0xa16081f360e3847006db660bae1c6d1b2e17ec2a-1" "emitter"
       "0x0000000000000000000000000000000000000001" s.

(** The [describe] block, run on an empty store: whether its test passes,
    and the store it leaves. A hook that is stopped fails the test. *)
Definition describe (newMockEvent : Event) : bool * Store :=
  match beforeAll newMockEvent ∅ with
  | (inr _, s) => (test_created_and_stored s, afterAll s)
  | (inl _, s) => (false, afterAll s)
  end.

End Tests.

(** ** The vocabulary of the properties *)

(** The four parameters of an [ApiCallProved] log, as the builder lays them
    out. *)
Definition has_params (e : Event) (callId requestHash responseHash : string)
    (emitter : Address) : Prop :=
  value <$> parameters e =
    [EthString callId; EthString requestHash; EthString responseHash; EthAddress emitter].

(** A well-formed chain event: the log index is a non-negative integer that
    fits the 32-bit integer taken from it, and the four parameters are there
    with their kinds. *)
Definition well_formed (e : Event) : Prop :=
  0 <= logIndex e < 2 ^ 31 /\
  exists callId requestHash responseHash emitter,
    has_params e callId requestHash responseHash emitter.

(** Hexadecimal digits: the value a digit stands for. *)
Definition hex_value (c : ascii) : N :=
  match index 0 (String c EmptyString) "0123456789abcdef" with
  | Some k => N.of_nat k
  | None => 16
  end.

(** The four-byte big-endian numeral of the specification, and the value of
    a little-endian numeral. *)
Definition bigEndian32 (n : Z) : Bytes :=
  [as_u8 (n / 2 ^ 24); as_u8 (n / 2 ^ 16); as_u8 (n / 2 ^ 8); as_u8 n].

Definition littleEndian_value (b : Bytes) : Z :=
  fold_right (fun x acc => Z.of_N (Byte.to_N x) + 256 * acc) 0 b.

(** The field names of a saved [ApiCallProved] entity. *)
Definition ApiCallProved_fields : gset string :=
  list_to_set ["id"; "callId"; "requestHash"; "responseHash"; "emitter";
               "blockNumber"; "blockTimestamp"; "transactionHash"]%string.

(** Handling an event once more changes nothing: both runs finish, the
    entity of the first run is still the one under the id, the store and the
    entity count stay as the first run left them, and the first run added one
    entity if the id was new. *)
Definition idempotent_at (h : Handler unit) (ty id : string) (s : Store) : Prop :=
  let s1 := exec h s in
  let s2 := exec h s1 in
  result h s = inr tt /\ result h s1 = inr tt /\
  (exists ent, store_get ty id s1 = Some ent /\ store_get ty id s2 = Some ent) /\
  s2 = s1 /\
  entityCount ty s2 = entityCount ty s1 /\
  (store_get ty id s = None -> entityCount ty s1 = S (entityCount ty s)).

(** The shape the specification requires of the fields of a chain event: a
    transaction hash of 32 bytes, a non-negative log index, and an emitter
    parameter that is an address of 20 bytes. *)
Definition required_fields_shaped (e : Event) : Prop :=
  length (hash (transaction e)) = 32%nat /\
  0 <= logIndex e /\
  exists p a, parameters e !! 3%nat = Some p /\ value p = EthAddress a /\
    length a = 20%nat.

(** The specification's adapter contract, read of a handler: an event whose
    required fields are not all there in their shape is refused, and nothing
    is persisted for it. *)
Definition refuses_misshapen (handler : Event -> Handler unit) : Prop :=
  forall (e : Event) (s : Store),
    ~ required_fields_shaped e ->
    exists err, result (handler e) s = inl err /\ exec (handler e) s = s.

#[global] Instance byte_eq_dec : EqDecision byte := Byte.byte_eq_dec.

(** What identifies a log on the chain. *)
Definition eventKey (e : Event) : Bytes * BigInt :=
  (hash (transaction e), logIndex e).

(** A feed with replays: two events with the same transaction hash and log
    index are the same event. *)
Definition replay_consistent (es : list Event) : Prop :=
  forall e1 e2, e1 ∈ es -> e2 ∈ es -> eventKey e1 = eventKey e2 -> e1 = e2.

(** The store key of a well-formed event. *)
Definition registry_key (e : Event) : string * string :=
  ApiCallsRegistry.storeKey (hash (transaction e) ++ fromI32 (logIndex e)).

(** Events that write the same key write the same entity. *)
Definition coherent (written : Event -> option ((string * string) * Entity))
    (es : list Event) : Prop :=
  forall e1 e2 k x1 x2, e1 ∈ es -> e2 ∈ es ->
    written e1 = Some (k, x1) -> written e2 = Some (k, x2) -> x1 = x2.

(** Every entry of the store was written by one of the events. *)
Definition from_events (written : Event -> option ((string * string) * Entity))
    (es : list Event) (s : Store) : Prop :=
  forall k x, s !! k = Some x -> exists e, e ∈ es /\ written e = Some (k, x).

(** The keys that the events of a feed write, in order. *)
Definition written_keys (written : Event -> option ((string * string) * Entity))
    (es : list Event) : list (string * string) :=
  omap (fun e => fst <$> written e) es.

(** The first four parameters of an event are there with the kinds the
    accessors of [event.params] ask for; more parameters may follow. *)
Definition decodes_to (e : Event) (callId requestHash responseHash : string)
    (emitter : Address) : Prop :=
  value <$> parameters e !! 0%nat = Some (EthString callId) /\
  value <$> parameters e !! 1%nat = Some (EthString requestHash) /\
  value <$> parameters e !! 2%nat = Some (EthString responseHash) /\
  value <$> parameters e !! 3%nat = Some (EthAddress emitter).

(** The characters of a hexadecimal numeral. *)
Definition is_hex_digit (c : ascii) : bool := (hex_value c <? 16)%N.

Fixpoint all_hex (s : string) : bool :=
  match s with
  | EmptyString => true
  | String c rest => is_hex_digit c && all_hex rest
  end.

(** The field names of a saved [ApiCall] entity. *)
Definition ApiCall_fields : gset string :=
  list_to_set ["id"; "callId"; "requestHash"; "responseHash"; "emitter";
               "txHash"; "blockNumber"; "timestamp"]%string.

(** An event that has the four parameters with their kinds, whatever its
    log index is. *)
Definition has_all_params (e : Event) : Prop :=
  exists callId requestHash responseHash emitter,
    has_params e callId requestHash responseHash emitter.

(** The store key that the handler of subgraph/src/mapping.ts writes. *)
Definition mapping_key (e : Event) : string * string :=
  Mapping.storeKey (Mapping.entityId e).

(** ** Facts about the runtime *)

Section RuntimeFacts.

Lemma as_u8_to_N (x : Z) : Byte.to_N (as_u8 x) = Z.to_N (x mod 256).
Proof.
  unfold as_u8.
  destruct (Byte.of_N (Z.to_N (x mod 256))) as [b|] eqn:E.
  - now apply Byte.to_of_N.
  - apply Byte.of_N_None_iff in E.
    pose proof (Z.mod_pos_bound x 256 eq_refl). lia.
Qed.

Lemma as_u8_inj (x y : Z) : as_u8 x = as_u8 y -> x mod 256 = y mod 256.
Proof.
  intros E. apply (f_equal Byte.to_N) in E. rewrite !as_u8_to_N in E.
  pose proof (Z.mod_pos_bound x 256 eq_refl).
  pose proof (Z.mod_pos_bound y 256 eq_refl). lia.
Qed.

Lemma length_fromI32 (x : Z) : length (fromI32 x) = 4%nat.
Proof. reflexivity. Qed.

Lemma length_concatI32 (h : Bytes) (x : Z) :
  length (concatI32 h x) = (length h + 4)%nat.
Proof. unfold concatI32. now rewrite length_app, length_fromI32. Qed.

(** Four bytes hold a 32-bit integer without loss. *)
Lemma fromI32_inj (x y : Z) :
  - 2 ^ 31 <= x < 2 ^ 31 -> - 2 ^ 31 <= y < 2 ^ 31 ->
  fromI32 x = fromI32 y -> x = y.
Proof.
  intros Hx Hy E. unfold fromI32 in E.
  injection E as E0 E1 E2 E3.
  apply as_u8_inj in E0, E1, E2, E3.
  rewrite !Z.shiftr_div_pow2 in * by lia.
  change (2 ^ 8) with 256 in *. change (2 ^ 16) with 65536 in *.
  change (2 ^ 24) with 16777216 in *. change (2 ^ 31) with 2147483648 in *.
  Z.div_mod_to_equations. lia.
Qed.

Lemma concatI32_inj (h1 h2 : Bytes) (x y : Z) :
  concatI32 h1 x = concatI32 h2 y -> h1 = h2 /\ fromI32 x = fromI32 y.
Proof. unfold concatI32. intros E. now apply app_inj_2 in E. Qed.

Lemma wrap_i32_fits (x : Z) : - 2 ^ 31 <= x < 2 ^ 31 -> wrap_i32 x = x.
Proof.
  intros Hx. unfold wrap_i32.
  change (2 ^ 31) with 2147483648 in *. change (2 ^ 32) with 4294967296 in *.
  Z.div_mod_to_equations. lia.
Qed.

Lemma toI32_fits (x : Z) : - 2 ^ 31 <= x < 2 ^ 31 -> toI32 x = inr x.
Proof.
  intros Hx. unfold toI32.
  rewrite (proj2 (Z.leb_le _ _)), (proj2 (Z.ltb_lt _ _)) by lia.
  simpl. f_equal. now apply wrap_i32_fits.
Qed.

Lemma toI32_overflow (x : Z) :
  x < - 2 ^ 32 \/ 2 ^ 32 <= x -> toI32 x = inl Overflow.
Proof.
  intros Hx. unfold toI32.
  destruct (Z.leb_spec (- 2 ^ 32) x); [|reflexivity].
  destruct (Z.ltb_spec x (2 ^ 32)); [lia|reflexivity].
Qed.

Lemma hex_value_digit (n : N) : (n < 16)%N -> hex_value (hex_digit n) = n.
Proof.
  intros Hn. rewrite <- (N2Nat.id n) at 2.
  assert (Hk : (N.to_nat n < 16)%nat) by lia.
  unfold hex_digit. revert Hk. generalize (N.to_nat n). intros k Hk.
  do 16 (destruct k as [|k]; [reflexivity|]). lia.
Qed.

Lemma hex_digit_not_colon (n : N) : hex_digit n <> ":"%char.
Proof.
  unfold hex_digit. generalize (N.to_nat n). intros k.
  do 16 (destruct k as [|k]; [discriminate|]). destruct k; discriminate.
Qed.

Lemma byte_of_nibbles (x y : byte) :
  (Byte.to_N x / 16 = Byte.to_N y / 16)%N ->
  (Byte.to_N x mod 16 = Byte.to_N y mod 16)%N -> x = y.
Proof.
  intros Hq Hr.
  assert (E : Byte.to_N x = Byte.to_N y).
  { rewrite (N.div_mod (Byte.to_N x) 16), (N.div_mod (Byte.to_N y) 16) by lia.
    now rewrite Hq, Hr. }
  apply (f_equal Byte.of_N) in E. rewrite !Byte.of_to_N in E. now injection E.
Qed.

Lemma hex_pair_inj (x y : byte) :
  hex_digit (Byte.to_N x / 16) = hex_digit (Byte.to_N y / 16) ->
  hex_digit (Byte.to_N x mod 16) = hex_digit (Byte.to_N y mod 16) -> x = y.
Proof.
  intros Hq Hr.
  pose proof (Byte.to_N_bounded x). pose proof (Byte.to_N_bounded y).
  assert (Bx : (Byte.to_N x / 16 < 16)%N) by (apply N.Div0.div_lt_upper_bound; lia).
  assert (By : (Byte.to_N y / 16 < 16)%N) by (apply N.Div0.div_lt_upper_bound; lia).
  assert (Rx : (Byte.to_N x mod 16 < 16)%N) by (apply N.mod_lt; lia).
  assert (Ry : (Byte.to_N y mod 16 < 16)%N) by (apply N.mod_lt; lia).
  apply (f_equal hex_value) in Hq, Hr.
  rewrite !hex_value_digit in Hq, Hr by assumption.
  now apply byte_of_nibbles.
Qed.

Lemma hex_digits_inj (a b : Bytes) : hex_digits a = hex_digits b -> a = b.
Proof.
  revert b. induction a as [|x a IH]; intros [|y b] E; simpl in E;
    try discriminate; [reflexivity|].
  injection E as E1 E2 E3.
  f_equal; [now apply hex_pair_inj | now apply IH].
Qed.

(** The colon of the string ids ends the hexadecimal part: it is no digit. *)
Lemma hex_colon_inj (a b : Bytes) (t u : string) :
  hex_digits a +:+ ":" +:+ t = hex_digits b +:+ ":" +:+ u -> a = b /\ t = u.
Proof.
  revert b. induction a as [|x a IH]; intros [|y b] E; simpl in E.
  - injection E as E. now split.
  - injection E as E _. symmetry in E. now apply hex_digit_not_colon in E.
  - injection E as E _. now apply hex_digit_not_colon in E.
  - injection E as E1 E2 E3. apply IH in E3 as [-> ->].
    split; [|reflexivity]. f_equal. now apply hex_pair_inj.
Qed.

End RuntimeFacts.

Section Decoding.

Variables (e : Event) (callId requestHash responseHash : string) (emitter : Address).
Hypothesis Hp : has_params e callId requestHash responseHash emitter.

Lemma has_params_lookup (i : nat) (v : EthValue) :
  [EthString callId; EthString requestHash; EthString responseHash;
   EthAddress emitter] !! i = Some v ->
  exists p, parameters e !! i = Some p /\ value p = v.
Proof.
  intros Hv. unfold has_params in Hp. rewrite <- Hp in Hv.
  rewrite list_lookup_fmap in Hv.
  destruct (parameters e !! i) as [p|]; [|discriminate].
  exists p. split; [reflexivity|]. now injection Hv.
Qed.

Lemma params_callId_ok : params_callId e = inr callId.
Proof.
  destruct (has_params_lookup 0 (EthString callId) eq_refl) as (p & Hl & Hv).
  unfold params_callId, parameter. now rewrite Hl; simpl; rewrite Hv.
Qed.

Lemma params_requestHash_ok : params_requestHash e = inr requestHash.
Proof.
  destruct (has_params_lookup 1 (EthString requestHash) eq_refl) as (p & Hl & Hv).
  unfold params_requestHash, parameter. now rewrite Hl; simpl; rewrite Hv.
Qed.

Lemma params_responseHash_ok : params_responseHash e = inr responseHash.
Proof.
  destruct (has_params_lookup 2 (EthString responseHash) eq_refl) as (p & Hl & Hv).
  unfold params_responseHash, parameter. now rewrite Hl; simpl; rewrite Hv.
Qed.

Lemma params_emitter_ok : params_emitter e = inr emitter.
Proof.
  destruct (has_params_lookup 3 (EthAddress emitter) eq_refl) as (p & Hl & Hv).
  unfold params_emitter, parameter. now rewrite Hl; simpl; rewrite Hv.
Qed.

End Decoding.

Lemma createApiCallProvedEvent_built (mock : Event) (c rq rs : string) (em : Address) :
  length em = 20%nat ->
  exists e, Utils.createApiCallProvedEvent mock c rq rs em = inr e /\
    has_params e c rq rs em /\
    logIndex e = logIndex mock /\ transaction e = transaction mock /\
    block e = block mock /\ address e = address mock.
Proof.
  intros Hl. unfold Utils.createApiCallProvedEvent, EthValue_fromAddress.
  rewrite Hl. cbn [Nat.eqb and_then]. eexists. split; [reflexivity|].
  repeat split.
Qed.

Lemma createApiCallProvedEvent_stopped (mock : Event) (c rq rs : string) (em : Address) :
  length em <> 20%nat ->
  Utils.createApiCallProvedEvent mock c rq rs em = inl AssertionFailed.
Proof.
  intros Hl. unfold Utils.createApiCallProvedEvent, EthValue_fromAddress.
  apply Nat.eqb_neq in Hl. now rewrite Hl.
Qed.

Lemma testEvent_built :
  Utils.createApiCallProvedEvent Examples.newMockEvent
    "Example string value" "Example string value" "Example string value"
    Examples.testEmitter = inr Examples.testEvent.
Proof. reflexivity. Qed.

(** ** The handler of src/api-calls-registry.ts, step by step *)

Module ApiCallsRegistryFacts.
Import ApiCallsRegistry.

Lemma registry_entityOf_id (e : Event) (id : Bytes) (c rq rs : string) (em : Address) :
  entityOf e id c rq rs em !! "id"%string = Some (VBytes id).
Proof.
  unfold entityOf, set_field, ApiCallProved_new.
  rewrite !lookup_insert_ne by discriminate. apply lookup_singleton_eq.
Qed.

Lemma registry_save_entityOf (e : Event) (id : Bytes) (c rq rs : string) (em : Address)
    (s : Store) :
  ApiCallProved_save (entityOf e id c rq rs em) s =
    (inr tt, <[storeKey id := entityOf e id c rq rs em]> s).
Proof. unfold ApiCallProved_save. now rewrite registry_entityOf_id. Qed.

(** What a run of the handler comes to: the first step that stops it, or
    one write of the finished entity. *)
Lemma registry_handle_unfold (e : Event) (s : Store) :
  handleApiCallProved e s =
    match entityId e with
    | inl err => (inl err, s)
    | inr id =>
      match params_callId e with
      | inl err => (inl err, s)
      | inr c =>
        match params_requestHash e with
        | inl err => (inl err, s)
        | inr rq =>
          match params_responseHash e with
          | inl err => (inl err, s)
          | inr rs =>
            match params_emitter e with
            | inl err => (inl err, s)
            | inr em => (inr tt, <[storeKey id := entityOf e id c rq rs em]> s)
            end
          end
        end
      end
    end.
Proof.
  unfold handleApiCallProved, bind, lift.
  destruct (entityId e) as [?|id]; [reflexivity|].
  destruct (params_callId e) as [?|c]; [reflexivity|].
  destruct (params_requestHash e) as [?|rq]; [reflexivity|].
  destruct (params_responseHash e) as [?|rs]; [reflexivity|].
  destruct (params_emitter e) as [?|em]; [reflexivity|].
  apply registry_save_entityOf.
Qed.

Lemma registry_entityId_fits (e : Event) :
  - 2 ^ 31 <= logIndex e < 2 ^ 31 ->
  entityId e = inr (hash (transaction e) ++ fromI32 (logIndex e)).
Proof. intros H. unfold entityId. now rewrite toI32_fits. Qed.

Lemma registry_handle_written (e : Event) (s : Store) :
  match written e with
  | Some (k, ent) => handleApiCallProved e s = (inr tt, <[k := ent]> s)
  | None => exists err, handleApiCallProved e s = (inl err, s)
  end.
Proof.
  rewrite registry_handle_unfold. unfold written.
  destruct (entityId e) as [?|id]; [eauto|].
  destruct (params_callId e) as [?|c]; [eauto|].
  destruct (params_requestHash e) as [?|rq]; [eauto|].
  destruct (params_responseHash e) as [?|rs]; [eauto|].
  destruct (params_emitter e) as [?|em]; [eauto|].
  reflexivity.
Qed.

Lemma registry_written_ok (e : Event) (id : Bytes) (c rq rs : string) (em : Address) :
  entityId e = inr id -> has_params e c rq rs em ->
  written e = Some (storeKey id, entityOf e id c rq rs em).
Proof.
  intros Hid Hp. unfold written. rewrite Hid.
  now rewrite (params_callId_ok _ _ _ _ _ Hp), (params_requestHash_ok _ _ _ _ _ Hp),
    (params_responseHash_ok _ _ _ _ _ Hp), (params_emitter_ok _ _ _ _ _ Hp).
Qed.

Lemma registry_written_inv (e : Event) (k : string * string) (ent : Entity) :
  written e = Some (k, ent) ->
  exists id c rq rs em, entityId e = inr id /\ k = storeKey id /\
    ent = entityOf e id c rq rs em /\
    params_callId e = inr c /\ params_requestHash e = inr rq /\
    params_responseHash e = inr rs /\ params_emitter e = inr em.
Proof.
  unfold written.
  destruct (entityId e) as [?|id]; [discriminate|].
  destruct (params_callId e) as [?|c]; [discriminate|].
  destruct (params_requestHash e) as [?|rq]; [discriminate|].
  destruct (params_responseHash e) as [?|rs]; [discriminate|].
  destruct (params_emitter e) as [?|em]; [discriminate|].
  intros [= <- <-]. exists id, c, rq, rs, em. repeat split; reflexivity.
Qed.

End ApiCallsRegistryFacts.

(** ** The handler of subgraph/src/mapping.ts, step by step *)

Module MappingFacts.
Import Mapping.

Lemma mapping_entityOf_id (e : Event) (id : string) (c rq rs : string) (em : Address) :
  entityOf e id c rq rs em !! "id"%string = Some (VString id).
Proof.
  unfold entityOf, set_field, ApiCall_new.
  rewrite !lookup_insert_ne by discriminate. apply lookup_singleton_eq.
Qed.

Lemma mapping_save_entityOf (e : Event) (id : string) (c rq rs : string) (em : Address)
    (s : Store) :
  ApiCall_save (entityOf e id c rq rs em) s =
    (inr tt, <[storeKey id := entityOf e id c rq rs em]> s).
Proof. unfold ApiCall_save. now rewrite mapping_entityOf_id. Qed.

Lemma mapping_handle_written (e : Event) (s : Store) :
  match written e with
  | Some (k, ent) => handleApiCallProved e s = (inr tt, <[k := ent]> s)
  | None => exists err, handleApiCallProved e s = (inl err, s)
  end.
Proof.
  unfold written, handleApiCallProved, bind, lift.
  destruct (params_callId e) as [?|c]; [eauto|].
  destruct (params_requestHash e) as [?|rq]; [eauto|].
  destruct (params_responseHash e) as [?|rs]; [eauto|].
  destruct (params_emitter e) as [?|em]; [eauto|].
  apply mapping_save_entityOf.
Qed.

Lemma mapping_written_ok (e : Event) (c rq rs : string) (em : Address) :
  has_params e c rq rs em ->
  written e = Some (storeKey (entityId e), entityOf e (entityId e) c rq rs em).
Proof.
  intros Hp. unfold written.
  now rewrite (params_callId_ok _ _ _ _ _ Hp), (params_requestHash_ok _ _ _ _ _ Hp),
    (params_responseHash_ok _ _ _ _ _ Hp), (params_emitter_ok _ _ _ _ _ Hp).
Qed.

Lemma mapping_written_inv (e : Event) (k : string * string) (ent : Entity) :
  written e = Some (k, ent) ->
  exists c rq rs em, k = storeKey (entityId e) /\
    ent = entityOf e (entityId e) c rq rs em /\
    params_callId e = inr c /\ params_requestHash e = inr rq /\
    params_responseHash e = inr rs /\ params_emitter e = inr em.
Proof.
  unfold written.
  destruct (params_callId e) as [?|c]; [discriminate|].
  destruct (params_requestHash e) as [?|rq]; [discriminate|].
  destruct (params_responseHash e) as [?|rs]; [discriminate|].
  destruct (params_emitter e) as [?|em]; [discriminate|].
  intros [= <- <-]. exists c, rq, rs, em. repeat split; reflexivity.
Qed.

End MappingFacts.

(** ** Handlers that write one entry *)

(** Both handlers fit one shape: whether a run is stopped, and the entry it
    writes if not, depend on the event alone. *)
Section SingleWrite.

Variable handler : Event -> Handler unit.
Variable written : Event -> option ((string * string) * Entity).
Hypothesis handler_written : forall (e : Event) (s : Store),
  match written e with
  | Some (k, ent) => handler e s = (inr tt, <[k := ent]> s)
  | None => exists err, handler e s = (inl err, s)
  end.

Lemma exec_written (e : Event) (s : Store) :
  exec (handler e) s =
    match written e with Some (k, ent) => <[k := ent]> s | None => s end.
Proof.
  unfold exec. pose proof (handler_written e s) as H.
  destruct (written e) as [[k ent]|]; [now rewrite H|].
  destruct H as [err ->]. reflexivity.
Qed.

Lemma result_written (e : Event) (s : Store) :
  result (handler e) s = inr tt <-> is_Some (written e).
Proof.
  unfold result. pose proof (handler_written e s) as H.
  destruct (written e) as [[k ent]|].
  - rewrite H. split; eauto.
  - destruct H as [err ->]. split; [discriminate|]. intros [? [=]].
Qed.

Lemma stopped_unchanged (e : Event) (s : Store) (err : Abort) :
  result (handler e) s = inl err -> exec (handler e) s = s.
Proof.
  intros Hr. rewrite exec_written.
  destruct (written e) as [[k ent]|] eqn:Hw; [|reflexivity].
  assert (H : result (handler e) s = inr tt) by (apply result_written; rewrite Hw; eauto).
  congruence.
Qed.

Lemma exec_frame (e : Event) (s : Store) (k : string * string) :
  (forall k' ent, written e = Some (k', ent) -> k <> k') ->
  exec (handler e) s !! k = s !! k.
Proof.
  intros Hk. rewrite exec_written.
  destruct (written e) as [[k' ent]|] eqn:Hw; [|reflexivity].
  apply lookup_insert_ne. intros ->. now apply (Hk k ent).
Qed.

Lemma exec_lookup (e : Event) (s : Store) (k : string * string) (ent : Entity) :
  written e = Some (k, ent) -> exec (handler e) s !! k = Some ent.
Proof. intros Hw. rewrite exec_written, Hw. apply lookup_insert_eq. Qed.

Lemma exec_twice (e : Event) (s : Store) :
  exec (handler e) (exec (handler e) s) = exec (handler e) s.
Proof.
  rewrite !exec_written. destruct (written e) as [[k ent]|]; [|reflexivity].
  apply insert_insert_eq.
Qed.

Lemma entityCount_insert (ty id : string) (ent : Entity) (s : Store) :
  entityCount ty (<[(ty, id) := ent]> s) =
    match s !! (ty, id) with
    | Some _ => entityCount ty s
    | None => S (entityCount ty s)
    end.
Proof.
  unfold entityCount. rewrite map_filter_insert_True by reflexivity.
  destruct (s !! (ty, id)) as [old|] eqn:Hs.
  - apply map_size_insert_Some. exists old.
    now apply map_lookup_filter_Some_2.
  - apply map_size_insert_None. apply map_lookup_filter_None. now left.
Qed.

Lemma entityCount_exec (e : Event) (s : Store) (ty id : string) (ent : Entity) :
  written e = Some ((ty, id), ent) ->
  entityCount ty (exec (handler e) s) =
    match s !! (ty, id) with
    | Some _ => entityCount ty s
    | None => S (entityCount ty s)
    end.
Proof. intros Hw. rewrite exec_written, Hw. apply entityCount_insert. Qed.

End SingleWrite.

(** ** The id of an entity *)

Section IdFacts.

Lemma fromI32_bigEndian32 (n : Z) : fromI32 n = rev (bigEndian32 n).
Proof. unfold fromI32, bigEndian32. now rewrite !Z.shiftr_div_pow2 by lia. Qed.

Lemma as_u8_value (x : Z) : Z.of_N (Byte.to_N (as_u8 x)) = x mod 256.
Proof.
  rewrite as_u8_to_N, Z2N.id; [reflexivity|].
  apply Z.mod_pos_bound. lia.
Qed.

Lemma littleEndian_value_fromI32 (x : Z) :
  0 <= x < 2 ^ 32 -> littleEndian_value (fromI32 x) = x.
Proof.
  intros Hx. unfold littleEndian_value, fromI32. cbn [fold_right].
  rewrite !as_u8_value, !Z.shiftr_div_pow2 by lia.
  change (2 ^ 8) with 256. change (2 ^ 16) with 65536.
  change (2 ^ 24) with 16777216. change (2 ^ 32) with 4294967296 in Hx.
  Z.div_mod_to_equations. lia.
Qed.

Lemma fromI32_inj_mod (x y : Z) :
  fromI32 x = fromI32 y -> x mod 2 ^ 32 = y mod 2 ^ 32.
Proof.
  intros E. unfold fromI32 in E. injection E as E0 E1 E2 E3.
  apply as_u8_inj in E0, E1, E2, E3.
  rewrite !Z.shiftr_div_pow2 in * by lia.
  change (2 ^ 8) with 256 in *. change (2 ^ 16) with 65536 in *.
  change (2 ^ 24) with 16777216 in *. change (2 ^ 32) with 4294967296 in *.
  Z.div_mod_to_equations. lia.
Qed.

Lemma toI32_inv (x i : Z) :
  toI32 x = inr i -> - 2 ^ 32 <= x < 2 ^ 32 /\ i mod 2 ^ 32 = x mod 2 ^ 32.
Proof.
  unfold toI32.
  destruct (Z.leb_spec (- 2 ^ 32) x); [|discriminate].
  destruct (Z.ltb_spec x (2 ^ 32)); [|discriminate].
  simpl. intros [= <-]. split; [lia|]. unfold wrap_i32.
  change (2 ^ 31) with 2147483648. change (2 ^ 32) with 4294967296 in *.
  Z.div_mod_to_equations. lia.
Qed.

(** Non-negative log indices with an id have distinct ids. *)
Lemma entityId_inj (e1 e2 : Event) (id : Bytes) :
  0 <= logIndex e1 -> 0 <= logIndex e2 ->
  ApiCallsRegistry.entityId e1 = inr id -> ApiCallsRegistry.entityId e2 = inr id ->
  hash (transaction e1) = hash (transaction e2) /\ logIndex e1 = logIndex e2.
Proof.
  unfold ApiCallsRegistry.entityId, and_then. intros H1 H2.
  destruct (toI32 (logIndex e1)) as [?|i1] eqn:T1; [discriminate|].
  destruct (toI32 (logIndex e2)) as [?|i2] eqn:T2; [discriminate|].
  intros [= <-] [= E]. symmetry in E. apply concatI32_inj in E as [Eh Ei].
  split; [assumption|].
  apply fromI32_inj_mod in Ei.
  apply toI32_inv in T1 as [B1 M1], T2 as [B2 M2].
  rewrite M1, M2 in Ei. rewrite !Z.mod_small in Ei by lia. assumption.
Qed.

Lemma Mapping_entityId_inj (e1 e2 : Event) :
  Mapping.entityId e1 = Mapping.entityId e2 ->
  hash (transaction e1) = hash (transaction e2) /\ logIndex e1 = logIndex e2.
Proof.
  unfold Mapping.entityId, toHex. simpl. intros E. injection E as E.
  apply hex_colon_inj in E as [Eh Et]. split; [assumption|].
  unfold BigInt_toString in Et. now apply (inj pretty) in Et.
Qed.

End IdFacts.

(** C2. Determinism: two events with the same transaction hash and log
    index get the same entity id, whatever their other fields are; this
    holds of the byte ids of src/api-calls-registry.ts and of the string ids
    of subgraph/src/mapping.ts. *)
Theorem entityId_deterministic (e1 e2 : Event) :
  hash (transaction e1) = hash (transaction e2) ->
  logIndex e1 = logIndex e2 ->
  ApiCallsRegistry.entityId e1 = ApiCallsRegistry.entityId e2 /\
  Mapping.entityId e1 = Mapping.entityId e2.
Proof.
  intros Hh Hl. unfold ApiCallsRegistry.entityId, Mapping.entityId.
  rewrite Hh, Hl. split; reflexivity.
Qed.

(** C3. Uniqueness: two chain events (log indices non-negative) that differ
    in transaction hash or in log index and that both get an id get
    different ids, as byte sequences and as store keys; the string ids of
    subgraph/src/mapping.ts differ as well. *)
Theorem entityId_unique (e1 e2 : Event) (id1 id2 : Bytes) :
  0 <= logIndex e1 -> 0 <= logIndex e2 ->
  ApiCallsRegistry.entityId e1 = inr id1 ->
  ApiCallsRegistry.entityId e2 = inr id2 ->
  hash (transaction e1) <> hash (transaction e2) \/ logIndex e1 <> logIndex e2 ->
  id1 <> id2 /\
  ApiCallsRegistry.storeKey id1 <> ApiCallsRegistry.storeKey id2 /\
  Mapping.entityId e1 <> Mapping.entityId e2.
Proof.
  intros H1 H2 E1 E2 Hd.
  assert (Hne : id1 <> id2).
  { intros ->. destruct (entityId_inj e1 e2 id2 H1 H2 E1 E2) as [Hh Hl].
    destruct Hd; contradiction. }
  split; [assumption|]. split.
  - unfold ApiCallsRegistry.storeKey, toHexString. intros [= E].
    now apply hex_digits_inj in E.
  - intros E. destruct (Mapping_entityId_inj e1 e2 E) as [Hh Hl].
    destruct Hd; contradiction.
Qed.

(** C4. The id of a well-formed event is the transaction hash followed by
    four bytes that hold the log index, here the big-endian numeral in
    reverse (lowest byte first); the id is four bytes longer than the hash,
    its last four bytes give the log index back, and no step of the
    computation is stopped. *)
Theorem entityId_encoding (e : Event) :
  well_formed e ->
  ApiCallsRegistry.entityId e =
    inr (hash (transaction e) ++ rev (bigEndian32 (logIndex e))) /\
  length (rev (bigEndian32 (logIndex e))) = 4%nat /\
  length (hash (transaction e) ++ rev (bigEndian32 (logIndex e))) =
    (length (hash (transaction e)) + 4)%nat /\
  littleEndian_value (rev (bigEndian32 (logIndex e))) = logIndex e.
Proof.
  intros [Hl _]. rewrite <- fromI32_bigEndian32. repeat split.
  - apply ApiCallsRegistryFacts.registry_entityId_fits. lia.
  - apply (length_concatI32 (hash (transaction e)) (logIndex e)).
  - apply littleEndian_value_fromI32. lia.
Qed.

Lemma entityId_deterministic_witness :
  hash (transaction Examples.scenarioEvent) = hash (transaction Examples.scenarioEvent') /\
  logIndex Examples.scenarioEvent = logIndex Examples.scenarioEvent' /\
  parameters Examples.scenarioEvent <> parameters Examples.scenarioEvent' /\
  block Examples.scenarioEvent <> block Examples.scenarioEvent' /\
  ApiCallsRegistry.entityId Examples.scenarioEvent =
    ApiCallsRegistry.entityId Examples.scenarioEvent' /\
  Mapping.entityId Examples.scenarioEvent = Mapping.entityId Examples.scenarioEvent'.
Proof.
  split; [reflexivity|]. split; [reflexivity|].
  split; [discriminate|]. split; [discriminate|].
  apply (entityId_deterministic Examples.scenarioEvent Examples.scenarioEvent');
    reflexivity.
Defined.

Lemma entityId_unique_witness :
  ApiCallsRegistry.entityId Examples.scenarioEvent =
    inr (repeat xaa 31 ++ [x01; x00; x00; x00; x00]) /\
  ApiCallsRegistry.entityId Examples.nextLogEvent =
    inr (repeat xaa 31 ++ [x01; x01; x00; x00; x00]) /\
  (repeat xaa 31 ++ [x01; x00; x00; x00; x00] <>
     repeat xaa 31 ++ [x01; x01; x00; x00; x00] /\
   ApiCallsRegistry.storeKey (repeat xaa 31 ++ [x01; x00; x00; x00; x00]) <>
     ApiCallsRegistry.storeKey (repeat xaa 31 ++ [x01; x01; x00; x00; x00]) /\
   Mapping.entityId Examples.scenarioEvent <> Mapping.entityId Examples.nextLogEvent).
Proof.
  split; [reflexivity|]. split; [reflexivity|].
  apply (entityId_unique Examples.scenarioEvent Examples.nextLogEvent).
  - simpl. lia.
  - simpl. lia.
  - reflexivity.
  - reflexivity.
  - right. simpl. lia.
Defined.

Lemma entityId_encoding_witness :
  ApiCallsRegistry.entityId Examples.scenarioEvent =
    inr (hash (transaction Examples.scenarioEvent) ++
         rev (bigEndian32 (logIndex Examples.scenarioEvent))) /\
  length (rev (bigEndian32 (logIndex Examples.scenarioEvent))) = 4%nat /\
  length (hash (transaction Examples.scenarioEvent) ++
          rev (bigEndian32 (logIndex Examples.scenarioEvent))) =
    (length (hash (transaction Examples.scenarioEvent)) + 4)%nat /\
  littleEndian_value (rev (bigEndian32 (logIndex Examples.scenarioEvent))) =
    logIndex Examples.scenarioEvent.
Proof.
  apply (entityId_encoding Examples.scenarioEvent).
  split; [simpl; lia|].
  exists "call-1"%string, "req-1"%string, "res-1"%string, Examples.testEmitter.
  reflexivity.
Defined.

(** ** What a run stores *)

Section Idempotence.

Variable handler : Event -> Handler unit.
Variable written : Event -> option ((string * string) * Entity).
Hypothesis handler_written : forall (e : Event) (s : Store),
  match written e with
  | Some (k, ent) => handler e s = (inr tt, <[k := ent]> s)
  | None => exists err, handler e s = (inl err, s)
  end.

Lemma written_idempotent (e : Event) (ty id : string) (ent : Entity) (s : Store) :
  written e = Some ((ty, id), ent) -> idempotent_at (handler e) ty id s.
Proof.
  intros Hw. unfold idempotent_at, store_get.
  assert (Hr : forall s', result (handler e) s' = inr tt).
  { intros s'. apply (result_written handler written handler_written).
    rewrite Hw. eauto. }
  rewrite (exec_twice handler written handler_written).
  repeat split; try apply Hr.
  - exists ent. split; apply (exec_lookup handler written handler_written _ _ _ _ Hw).
  - intros Hs.
    rewrite (entityCount_exec handler written handler_written _ _ _ _ _ Hw).
    now rewrite Hs.
Qed.

End Idempotence.

Lemma registry_entityOf_dom (e : Event) (id : Bytes) (c rq rs : string) (em : Address) :
  dom (ApiCallsRegistry.entityOf e id c rq rs em) = ApiCallProved_fields.
Proof.
  unfold ApiCallsRegistry.entityOf, set_field, ApiCallProved_new, ApiCallProved_fields.
  rewrite !dom_insert_L, dom_singleton_L. simpl. set_solver.
Qed.

Lemma registry_entityOf_fields (e : Event) (id : Bytes) (c rq rs : string) (em : Address) :
  let ent := ApiCallsRegistry.entityOf e id c rq rs em in
  ent !! "id"%string = Some (VBytes id) /\
  ent !! "callId"%string = Some (VString c) /\
  ent !! "requestHash"%string = Some (VString rq) /\
  ent !! "responseHash"%string = Some (VString rs) /\
  ent !! "emitter"%string = Some (VBytes em) /\
  ent !! "blockNumber"%string = Some (VBigInt (number (block e))) /\
  ent !! "blockTimestamp"%string = Some (VBigInt (timestamp (block e))) /\
  ent !! "transactionHash"%string = Some (VBytes (hash (transaction e))).
Proof.
  unfold ApiCallsRegistry.entityOf, set_field, ApiCallProved_new.
  repeat split;
    repeat first [ apply lookup_insert_eq | apply lookup_singleton_eq
                 | rewrite lookup_insert_ne by discriminate ].
Qed.

(** C1. Idempotence: for a well-formed event, the handler run twice saves
    under the same id both times, the second run leaves the store and the
    entity count as the first run left them, and the first run raised the
    count by one if the id was new; likewise for the handler of
    subgraph/src/mapping.ts and its string ids. *)
Theorem process_twice (e : Event) (s : Store) :
  well_formed e ->
  exists id : Bytes,
    ApiCallsRegistry.entityId e = inr id /\
    idempotent_at (ApiCallsRegistry.handleApiCallProved e)
      "ApiCallProved" (toHexString id) s /\
    idempotent_at (Mapping.handleApiCallProved e)
      "ApiCall" (Mapping.entityId e) s.
Proof.
  intros [Hl (c & rq & rs & em & Hp)].
  assert (Hid := ApiCallsRegistryFacts.registry_entityId_fits e ltac:(lia)).
  eexists. split; [exact Hid|]. split.
  - eapply (written_idempotent _ _ ApiCallsRegistryFacts.registry_handle_written).
    apply (ApiCallsRegistryFacts.registry_written_ok _ _ _ _ _ _ Hid Hp).
  - eapply (written_idempotent _ _ MappingFacts.mapping_handle_written).
    apply (MappingFacts.mapping_written_ok _ _ _ _ _ Hp).
Qed.

(** C5. Field fidelity: after a well-formed event is handled, the store
    holds, under the event's id, an entity whose callId, requestHash,
    responseHash and emitter are the event's parameters and whose
    blockNumber, blockTimestamp and transactionHash are the event's block
    number, block timestamp and transaction hash; it has no other field than
    these and its id. *)
Theorem stored_fields (e : Event) (s : Store)
    (callId requestHash responseHash : string) (emitter : Address) :
  0 <= logIndex e < 2 ^ 31 ->
  has_params e callId requestHash responseHash emitter ->
  exists (id : Bytes) (ent : Entity),
    ApiCallsRegistry.entityId e = inr id /\
    result (ApiCallsRegistry.handleApiCallProved e) s = inr tt /\
    store_get "ApiCallProved" (toHexString id)
      (exec (ApiCallsRegistry.handleApiCallProved e) s) = Some ent /\
    dom ent = ApiCallProved_fields /\
    ent !! "id"%string = Some (VBytes id) /\
    ent !! "callId"%string = Some (VString callId) /\
    ent !! "requestHash"%string = Some (VString requestHash) /\
    ent !! "responseHash"%string = Some (VString responseHash) /\
    ent !! "emitter"%string = Some (VBytes emitter) /\
    ent !! "blockNumber"%string = Some (VBigInt (number (block e))) /\
    ent !! "blockTimestamp"%string = Some (VBigInt (timestamp (block e))) /\
    ent !! "transactionHash"%string = Some (VBytes (hash (transaction e))).
Proof.
  intros Hl Hp.
  assert (Hid := ApiCallsRegistryFacts.registry_entityId_fits e ltac:(lia)).
  pose proof (ApiCallsRegistryFacts.registry_written_ok _ _ _ _ _ _ Hid Hp) as Hw.
  eexists _, _. split; [exact Hid|]. split; [|split; [|split]].
  - apply (result_written _ _ ApiCallsRegistryFacts.registry_handle_written).
    rewrite Hw. eauto.
  - apply (exec_lookup _ _ ApiCallsRegistryFacts.registry_handle_written _ _ _ _ Hw).
  - apply registry_entityOf_dom.
  - apply registry_entityOf_fields.
Qed.

Lemma process_twice_witness :
  exists id : Bytes,
    ApiCallsRegistry.entityId Examples.scenarioEvent = inr id /\
    idempotent_at (ApiCallsRegistry.handleApiCallProved Examples.scenarioEvent)
      "ApiCallProved" (toHexString id) ∅ /\
    idempotent_at (Mapping.handleApiCallProved Examples.scenarioEvent)
      "ApiCall" (Mapping.entityId Examples.scenarioEvent) ∅.
Proof.
  apply (process_twice Examples.scenarioEvent ∅).
  split; [simpl; lia|].
  exists "call-1"%string, "req-1"%string, "res-1"%string, Examples.testEmitter.
  reflexivity.
Defined.

Lemma stored_fields_witness :
  exists (id : Bytes) (ent : Entity),
    ApiCallsRegistry.entityId Examples.testEvent = inr id /\
    result (ApiCallsRegistry.handleApiCallProved Examples.testEvent) ∅ = inr tt /\
    store_get "ApiCallProved" (toHexString id)
      (exec (ApiCallsRegistry.handleApiCallProved Examples.testEvent) ∅) = Some ent /\
    dom ent = ApiCallProved_fields /\
    ent !! "id"%string = Some (VBytes id) /\
    ent !! "callId"%string = Some (VString "Example string value") /\
    ent !! "requestHash"%string = Some (VString "Example string value") /\
    ent !! "responseHash"%string = Some (VString "Example string value") /\
    ent !! "emitter"%string = Some (VBytes Examples.testEmitter) /\
    ent !! "blockNumber"%string = Some (VBigInt 1) /\
    ent !! "blockTimestamp"%string = Some (VBigInt 1) /\
    ent !! "transactionHash"%string = Some (VBytes Examples.defaultAddress).
Proof.
  apply (stored_fields Examples.testEvent ∅
           "Example string value" "Example string value" "Example string value"
           Examples.testEmitter).
  - simpl. lia.
  - reflexivity.
Defined.

(** ** Runs that are stopped, and the rest of the store *)

(** C10. Frame: a run of either handler leaves every store entry alone
    whose key is not the key of the event's id. *)
Theorem handler_frame (e : Event) (s : Store) (k : string * string) :
  ((forall id, ApiCallsRegistry.entityId e = inr id -> k <> ApiCallsRegistry.storeKey id) ->
   exec (ApiCallsRegistry.handleApiCallProved e) s !! k = s !! k) /\
  (k <> Mapping.storeKey (Mapping.entityId e) ->
   exec (Mapping.handleApiCallProved e) s !! k = s !! k).
Proof.
  split; intros Hk.
  - apply (exec_frame _ _ ApiCallsRegistryFacts.registry_handle_written).
    intros k' ent Hw.
    apply ApiCallsRegistryFacts.registry_written_inv in Hw
      as (id & c & rq & rs & em & Hid & -> & _).
    now apply Hk.
  - apply (exec_frame _ _ MappingFacts.mapping_handle_written).
    intros k' ent Hw.
    apply MappingFacts.mapping_written_inv in Hw as (c & rq & rs & em & -> & _).
    exact Hk.
Qed.

Lemma handler_frame_witness :
  exec (ApiCallsRegistry.handleApiCallProved Examples.scenarioEvent) Examples.otherStore
    !! ("ApiCallProved", "0x00")%string =
    Examples.otherStore !! ("ApiCallProved", "0x00")%string /\
  exec (Mapping.handleApiCallProved Examples.scenarioEvent) Examples.otherStore
    !! ("ApiCallProved", "0x00")%string =
    Examples.otherStore !! ("ApiCallProved", "0x00")%string.
Proof.
  destruct (handler_frame Examples.scenarioEvent Examples.otherStore
              ("ApiCallProved", "0x00")%string) as [H1 H2].
  split.
  - apply H1. intros id [= <-]. discriminate.
  - apply H2. discriminate.
Defined.

Lemma mapping_entityOf_dom (e : Event) (id : string) (c rq rs : string) (em : Address) :
  dom (Mapping.entityOf e id c rq rs em) = ApiCall_fields.
Proof.
  unfold Mapping.entityOf, set_field, ApiCall_new, ApiCall_fields.
  rewrite !dom_insert_L, dom_singleton_L. simpl. set_solver.
Qed.

Section RefusedWrites.

Variable host : Host.Host.

(** On any host a run is what the handler's run on the reliable store
    writes, given to the host in one call, or the same stop before any
    write. *)
Lemma host_registry_run (e : Event) (s : Store) :
  match ApiCallsRegistry.written e with
  | Some ((ty, id), ent) =>
      Host.registry_handleApiCallProved host e s = Host.store_set host ty id ent s
  | None => exists err, Host.registry_handleApiCallProved host e s = (inl err, s)
  end.
Proof.
  unfold ApiCallsRegistry.written, Host.registry_handleApiCallProved, bind, lift.
  destruct (ApiCallsRegistry.entityId e) as [?|id]; [eauto|].
  destruct (params_callId e) as [?|c]; [eauto|].
  destruct (params_requestHash e) as [?|rq]; [eauto|].
  destruct (params_responseHash e) as [?|rs]; [eauto|].
  destruct (params_emitter e) as [?|em]; [eauto|].
  unfold ApiCallsRegistry.storeKey, Host.ApiCallProved_save.
  fold (ApiCallsRegistry.entityOf e id c rq rs em).
  now rewrite ApiCallsRegistryFacts.registry_entityOf_id.
Qed.

Lemma host_mapping_run (e : Event) (s : Store) :
  match Mapping.written e with
  | Some ((ty, id), ent) =>
      Host.mapping_handleApiCallProved host e s = Host.store_set host ty id ent s
  | None => exists err, Host.mapping_handleApiCallProved host e s = (inl err, s)
  end.
Proof.
  unfold Mapping.written, Host.mapping_handleApiCallProved, bind, lift.
  destruct (params_callId e) as [?|c]; [eauto|].
  destruct (params_requestHash e) as [?|rq]; [eauto|].
  destruct (params_responseHash e) as [?|rs]; [eauto|].
  destruct (params_emitter e) as [?|em]; [eauto|].
  unfold Mapping.storeKey, Host.ApiCall_save.
  fold (Mapping.entityOf e (Mapping.entityId e) c rq rs em).
  now rewrite MappingFacts.mapping_entityOf_id.
Qed.

Lemma host_store_set_stopped (ty id : string) (ent : Entity) (s : Store) (err : Abort) :
  (Host.store_set host ty id ent s).1 = inl err ->
  err = StoreUnavailable /\ host ty id ent s = false /\
  (Host.store_set host ty id ent s).2 = s.
Proof.
  unfold Host.store_set. destruct (host ty id ent s); [discriminate|].
  intros [= <-]. auto.
Qed.

Lemma host_registry_stopped (e : Event) (s : Store) (err : Abort) :
  result (Host.registry_handleApiCallProved host e) s = inl err ->
  exec (Host.registry_handleApiCallProved host e) s = s.
Proof.
  unfold result, exec. pose proof (host_registry_run e s) as H.
  destruct (ApiCallsRegistry.written e) as [[[ty id] ent]|].
  - rewrite H. intros Hr. now apply host_store_set_stopped in Hr.
  - destruct H as [err' ->]. reflexivity.
Qed.

Lemma host_mapping_stopped (e : Event) (s : Store) (err : Abort) :
  result (Host.mapping_handleApiCallProved host e) s = inl err ->
  exec (Host.mapping_handleApiCallProved host e) s = s.
Proof.
  unfold result, exec. pose proof (host_mapping_run e s) as H.
  destruct (Mapping.written e) as [[[ty id] ent]|].
  - rewrite H. intros Hr. now apply host_store_set_stopped in Hr.
  - destruct H as [err' ->]. reflexivity.
Qed.

End RefusedWrites.

Lemma host_reliable_registry (e : Event) (s : Store) :
  Host.registry_handleApiCallProved Host.reliable e s =
    ApiCallsRegistry.handleApiCallProved e s.
Proof. reflexivity. Qed.

Lemma host_reliable_mapping (e : Event) (s : Store) :
  Host.mapping_handleApiCallProved Host.reliable e s =
    Mapping.handleApiCallProved e s.
Proof. reflexivity. Qed.

(** C7. All or nothing, on a host that may refuse the store write. Each
    handler gives the host the finished entity in its one [store.set], after
    every step that can stop the run. A run that fails, be it stopped before
    the write or refused by the host at the write, leaves the store as it
    was: every entry, and so every entity committed before, is as before,
    and a lookup of the event's id that found nothing before finds nothing
    after. A write that the host refuses is reported as [StoreUnavailable].
    An entry that is in the store after a run was there before or is an
    entity with all its fields. The handlers on the reliable store are the
    case of a host that takes every write. *)
Theorem stopped_run_atomic (host : Host.Host) (e : Event) (s : Store) :
  (forall err, result (Host.registry_handleApiCallProved host e) s = inl err ->
     exec (Host.registry_handleApiCallProved host e) s = s /\
     (forall k, exec (Host.registry_handleApiCallProved host e) s !! k = s !! k) /\
     forall id, ApiCallsRegistry.entityId e = inr id ->
       store_get "ApiCallProved" (toHexString id) s = None ->
       store_get "ApiCallProved" (toHexString id)
         (exec (Host.registry_handleApiCallProved host e) s) = None) /\
  (forall err, result (Host.mapping_handleApiCallProved host e) s = inl err ->
     exec (Host.mapping_handleApiCallProved host e) s = s /\
     (forall k, exec (Host.mapping_handleApiCallProved host e) s !! k = s !! k) /\
     (store_get "ApiCall" (Mapping.entityId e) s = None ->
      store_get "ApiCall" (Mapping.entityId e)
        (exec (Host.mapping_handleApiCallProved host e) s) = None)) /\
  (forall ty id ent, ApiCallsRegistry.written e = Some ((ty, id), ent) ->
     host ty id ent s = false ->
     result (Host.registry_handleApiCallProved host e) s = inl StoreUnavailable) /\
  (forall ty id ent, Mapping.written e = Some ((ty, id), ent) ->
     host ty id ent s = false ->
     result (Host.mapping_handleApiCallProved host e) s = inl StoreUnavailable) /\
  (forall k ent,
     exec (Host.registry_handleApiCallProved host e) s !! k = Some ent ->
     s !! k = Some ent \/ dom ent = ApiCallProved_fields) /\
  (forall k ent,
     exec (Host.mapping_handleApiCallProved host e) s !! k = Some ent ->
     s !! k = Some ent \/ dom ent = ApiCall_fields) /\
  Host.registry_handleApiCallProved Host.reliable e s =
    ApiCallsRegistry.handleApiCallProved e s /\
  Host.mapping_handleApiCallProved Host.reliable e s =
    Mapping.handleApiCallProved e s.
Proof.
  split; [|split; [|split; [|split; [|split; [|split; [|split]]]]]].
  - intros err Hr. rewrite (host_registry_stopped host e s err Hr).
    split; [reflexivity|]. split; [reflexivity|]. intros id _ Hn. exact Hn.
  - intros err Hr. rewrite (host_mapping_stopped host e s err Hr).
    split; [reflexivity|]. split; [reflexivity|]. intros Hn. exact Hn.
  - intros ty id ent Hw Hh. unfold result.
    pose proof (host_registry_run host e s) as H. rewrite Hw in H. rewrite H.
    unfold Host.store_set. now rewrite Hh.
  - intros ty id ent Hw Hh. unfold result.
    pose proof (host_mapping_run host e s) as H. rewrite Hw in H. rewrite H.
    unfold Host.store_set. now rewrite Hh.
  - intros k ent. unfold exec.
    pose proof (host_registry_run host e s) as H.
    destruct (ApiCallsRegistry.written e) as [[[ty id] ent']|] eqn:Hw.
    + rewrite H. unfold Host.store_set.
      destruct (host ty id ent' s); [|now left]. cbn [snd].
      destruct (decide ((ty, id) = k)) as [<-|Hne].
      * rewrite lookup_insert_eq. intros [= <-]. right.
        apply ApiCallsRegistryFacts.registry_written_inv in Hw
          as (i & c & rq & rs & em & _ & _ & -> & _).
        apply registry_entityOf_dom.
      * rewrite lookup_insert_ne by assumption. now left.
    + destruct H as [err ->]. now left.
  - intros k ent. unfold exec.
    pose proof (host_mapping_run host e s) as H.
    destruct (Mapping.written e) as [[[ty id] ent']|] eqn:Hw.
    + rewrite H. unfold Host.store_set.
      destruct (host ty id ent' s); [|now left]. cbn [snd].
      destruct (decide ((ty, id) = k)) as [<-|Hne].
      * rewrite lookup_insert_eq. intros [= <-]. right.
        apply MappingFacts.mapping_written_inv in Hw
          as (c & rq & rs & em & _ & -> & _).
        apply mapping_entityOf_dom.
      * rewrite lookup_insert_ne by assumption. now left.
    + destruct H as [err ->]. now left.
  - apply host_reliable_registry.
  - apply host_reliable_mapping.
Qed.

Lemma stopped_run_atomic_witness :
  (result (Host.registry_handleApiCallProved Host.unavailable Examples.scenarioEvent)
     Examples.otherStore = inl StoreUnavailable /\
   exec (Host.registry_handleApiCallProved Host.unavailable Examples.scenarioEvent)
     Examples.otherStore = Examples.otherStore /\
   exec (Host.registry_handleApiCallProved Host.unavailable Examples.scenarioEvent)
     Examples.otherStore !! ("ApiCallProved", "0x00")%string =
     Some (ApiCallProved_new [x00]) /\
   store_get "ApiCallProved"
     "0xaaaaaaaaaaaaaaaaaaaaaaaaaaaaaaaaaaaaaaaaaaaaaaaaaaaaaaaaaaaaaa0100000000"
     (exec (Host.registry_handleApiCallProved Host.unavailable Examples.scenarioEvent)
        Examples.otherStore) = None) /\
  (result (Host.mapping_handleApiCallProved Host.unavailable Examples.scenarioEvent)
     Examples.otherStore = inl StoreUnavailable /\
   exec (Host.mapping_handleApiCallProved Host.unavailable Examples.scenarioEvent)
     Examples.otherStore = Examples.otherStore) /\
  (result (ApiCallsRegistry.handleApiCallProved Examples.truncatedEvent)
     Examples.otherStore = inl IndexOutOfRange /\
   exec (ApiCallsRegistry.handleApiCallProved Examples.truncatedEvent)
     Examples.otherStore = Examples.otherStore /\
   exec (ApiCallsRegistry.handleApiCallProved Examples.truncatedEvent)
     Examples.otherStore !! ("ApiCallProved", "0x00")%string =
     Some (ApiCallProved_new [x00])).
Proof.
  destruct (stopped_run_atomic Host.unavailable Examples.scenarioEvent
              Examples.otherStore) as (A1 & A2 & A3 & A4 & _).
  destruct (stopped_run_atomic Host.reliable Examples.truncatedEvent
              Examples.otherStore) as (B1 & _ & _ & _ & _ & _ & B7 & _).
  assert (RA : result (Host.registry_handleApiCallProved Host.unavailable
                         Examples.scenarioEvent) Examples.otherStore =
               inl StoreUnavailable).
  { apply (A3 "ApiCallProved"%string
             "0xaaaaaaaaaaaaaaaaaaaaaaaaaaaaaaaaaaaaaaaaaaaaaaaaaaaaaaaaaaaaaa0100000000"%string
             (ApiCallsRegistry.entityOf Examples.scenarioEvent
                (repeat xaa 31 ++ [x01; x00; x00; x00; x00])
                "call-1" "req-1" "res-1" Examples.testEmitter));
      reflexivity. }
  assert (RM : result (Host.mapping_handleApiCallProved Host.unavailable
                         Examples.scenarioEvent) Examples.otherStore =
               inl StoreUnavailable).
  { apply (A4 "ApiCall"%string
             "0xaaaaaaaaaaaaaaaaaaaaaaaaaaaaaaaaaaaaaaaaaaaaaaaaaaaaaaaaaaaaaa01:0"%string
             (Mapping.entityOf Examples.scenarioEvent
                (Mapping.entityId Examples.scenarioEvent)
                "call-1" "req-1" "res-1" Examples.testEmitter));
      reflexivity. }
  destruct (A1 StoreUnavailable RA) as (A11 & A12 & A13).
  destruct (A2 StoreUnavailable RM) as (A21 & _).
  assert (RB : result (Host.registry_handleApiCallProved Host.reliable
                         Examples.truncatedEvent) Examples.otherStore =
               inl IndexOutOfRange) by reflexivity.
  destruct (B1 IndexOutOfRange RB) as (B11 & B12 & _).
  split; [|split].
  - split; [exact RA|]. split; [exact A11|]. split.
    + rewrite A12. reflexivity.
    + apply (A13 (repeat xaa 31 ++ [x01; x00; x00; x00; x00])); reflexivity.
  - split; [exact RM|exact A21].
  - split; [reflexivity|]. split.
    + exact B11.
    + transitivity (Examples.otherStore !! ("ApiCallProved", "0x00")%string);
        [exact (B12 ("ApiCallProved", "0x00")%string)|reflexivity].
Defined.

(** ** The two handlers side by side *)



Lemma mapping_entityOf_fields (e : Event) (id : string) (c rq rs : string) (em : Address) :
  let ent := Mapping.entityOf e id c rq rs em in
  ent !! "id"%string = Some (VString id) /\
  ent !! "callId"%string = Some (VString c) /\
  ent !! "requestHash"%string = Some (VString rq) /\
  ent !! "responseHash"%string = Some (VString rs) /\
  ent !! "emitter"%string = Some (VBytes em) /\
  ent !! "txHash"%string = Some (VBytes (hash (transaction e))) /\
  ent !! "blockNumber"%string = Some (VBigInt (number (block e))) /\
  ent !! "timestamp"%string = Some (VBigInt (timestamp (block e))).
Proof.
  unfold Mapping.entityOf, set_field, ApiCall_new.
  repeat split;
    repeat first [ apply lookup_insert_eq | apply lookup_singleton_eq
                 | rewrite lookup_insert_ne by discriminate ].
Qed.



(** ** Events with misshapen fields *)

(** C6, as stated, fails: the handler checks no shapes. The misshapen event
    is handled to the end and its entity is persisted. *)
Lemma misshapen_event_persisted :
  ~ required_fields_shaped Examples.misshapenEvent /\
  result (ApiCallsRegistry.handleApiCallProved Examples.misshapenEvent) ∅ = inr tt /\
  store_get "ApiCallProved" "0xaaffffffff"
    (exec (ApiCallsRegistry.handleApiCallProved Examples.misshapenEvent) ∅) <> None /\
  ~ refuses_misshapen ApiCallsRegistry.handleApiCallProved.
Proof.
  assert (Hs : ~ required_fields_shaped Examples.misshapenEvent).
  { intros (Hh & _). discriminate Hh. }
  split; [exact Hs|]. split; [reflexivity|]. split.
  - assert (Hw := ApiCallsRegistryFacts.registry_written_ok Examples.misshapenEvent
             [xaa; xff; xff; xff; xff] "call-1" "req-1" "res-1" [] eq_refl eq_refl).
    unfold store_get.
    change ("ApiCallProved"%string, "0xaaffffffff"%string)
      with (ApiCallsRegistry.storeKey [xaa; xff; xff; xff; xff]).
    rewrite (exec_lookup _ _ ApiCallsRegistryFacts.registry_handle_written _ _ _ _ Hw).
    discriminate.
  - intros Hr. destruct (Hr Examples.misshapenEvent ∅ Hs) as (err & Herr & _).
    discriminate Herr.
Qed.

Section Acceptance.

Lemma toI32_accepts (x : Z) :
  - 2 ^ 32 <= x < 2 ^ 32 -> toI32 x = inr (wrap_i32 x).
Proof.
  intros Hx. unfold toI32.
  now rewrite (proj2 (Z.leb_le _ _)), (proj2 (Z.ltb_lt _ _)) by lia.
Qed.

Lemma as_u8_mod (x y : Z) : x mod 256 = y mod 256 -> as_u8 x = as_u8 y.
Proof. intros E. unfold as_u8. now rewrite E. Qed.

(** The four bytes of an integer are those of its 32-bit wrap-around. *)
Lemma fromI32_wrap (x : Z) : fromI32 (wrap_i32 x) = fromI32 x.
Proof.
  unfold fromI32, wrap_i32. rewrite !Z.shiftr_div_pow2 by lia.
  change (2 ^ 8) with 256. change (2 ^ 16) with 65536.
  change (2 ^ 24) with 16777216. change (2 ^ 31) with 2147483648.
  change (2 ^ 32) with 4294967296.
  assert (H0 : forall a b, a mod 256 = b mod 256 -> forall l l' : Bytes,
            l = l' -> as_u8 a :: l = as_u8 b :: l').
  { intros a b E l l' ->. now rewrite (as_u8_mod a b E). }
  repeat (apply H0; [Z.div_mod_to_equations; lia|]). reflexivity.
Qed.

Lemma registry_entityId_accepts (e : Event) :
  - 2 ^ 32 <= logIndex e < 2 ^ 32 ->
  ApiCallsRegistry.entityId e = inr (hash (transaction e) ++ fromI32 (logIndex e)).
Proof.
  intros Hl. unfold ApiCallsRegistry.entityId.
  rewrite (toI32_accepts _ Hl). cbn [and_then]. unfold concatI32.
  now rewrite fromI32_wrap.
Qed.

Lemma registry_entityId_range (e : Event) (id : Bytes) :
  ApiCallsRegistry.entityId e = inr id -> - 2 ^ 32 <= logIndex e < 2 ^ 32.
Proof.
  unfold ApiCallsRegistry.entityId, and_then.
  destruct (toI32 (logIndex e)) as [?|i] eqn:T; [discriminate|].
  intros _. now apply toI32_inv in T.
Qed.

Lemma param_toString_iff (e : Event) (i : nat) (c : string) :
  and_then (parameter e i) (fun p => EthValue_toString (value p)) = inr c <->
  value <$> parameters e !! i = Some (EthString c).
Proof.
  unfold parameter, and_then.
  destruct (parameters e !! i) as [p|]; cbn [fmap option_fmap option_map];
    [|split; discriminate].
  destruct (value p); cbn [EthValue_toString]; split; intros [= ->]; reflexivity.
Qed.

Lemma param_toAddress_iff (e : Event) (i : nat) (a : Address) :
  and_then (parameter e i) (fun p => EthValue_toAddress (value p)) = inr a <->
  value <$> parameters e !! i = Some (EthAddress a).
Proof.
  unfold parameter, and_then.
  destruct (parameters e !! i) as [p|]; cbn [fmap option_fmap option_map];
    [|split; discriminate].
  destruct (value p); cbn [EthValue_toAddress]; split; intros [= ->]; reflexivity.
Qed.

Lemma registry_written_decodes (e : Event) (c rq rs : string) (em : Address) :
  - 2 ^ 32 <= logIndex e < 2 ^ 32 -> decodes_to e c rq rs em ->
  ApiCallsRegistry.written e =
    Some (ApiCallsRegistry.storeKey (hash (transaction e) ++ fromI32 (logIndex e)),
          ApiCallsRegistry.entityOf e (hash (transaction e) ++ fromI32 (logIndex e))
            c rq rs em).
Proof.
  intros Hl (D0 & D1 & D2 & D3). unfold ApiCallsRegistry.written.
  rewrite (registry_entityId_accepts e Hl).
  apply param_toString_iff in D0, D1, D2. apply param_toAddress_iff in D3.
  unfold params_callId, params_requestHash, params_responseHash, params_emitter.
  now rewrite D0, D1, D2, D3.
Qed.

Lemma registry_written_decodes_inv (e : Event) (k : string * string) (ent : Entity) :
  ApiCallsRegistry.written e = Some (k, ent) ->
  - 2 ^ 32 <= logIndex e < 2 ^ 32 /\
  exists c rq rs em, decodes_to e c rq rs em.
Proof.
  intros Hw.
  apply ApiCallsRegistryFacts.registry_written_inv in Hw
    as (id & c & rq & rs & em & Hid & _ & _ & H0 & H1 & H2 & H3).
  split; [now apply (registry_entityId_range e id)|].
  exists c, rq, rs, em. unfold decodes_to.
  rewrite <- !param_toString_iff, <- param_toAddress_iff. auto.
Qed.

End Acceptance.

(** C6, amended. There is no adapter step and no error of its own, and the
    widths of hash and address and the sign of the log index are not looked
    at. A run is handled to the end exactly when the log index is at least
    [- 2 ^ 32] and below [2 ^ 32], the values [BigInt.toI32] takes, and the
    first four parameters are there with the kinds string, string, string
    and address. Every other run is stopped by the runtime with the store
    left as it was: with an overflow when the log index is out of that
    range, and in any case when the emitter parameter is absent or is no
    address. A run that is handled to the end stores the entity with every
    field set, under the hash followed by the low four bytes of the log
    index. *)
Theorem runtime_stops_undecodable (e : Event) (s : Store) :
  (result (ApiCallsRegistry.handleApiCallProved e) s = inr tt <->
   - 2 ^ 32 <= logIndex e < 2 ^ 32 /\
   exists c rq rs em, decodes_to e c rq rs em) /\
  (forall err, result (ApiCallsRegistry.handleApiCallProved e) s = inl err ->
   exec (ApiCallsRegistry.handleApiCallProved e) s = s) /\
  (logIndex e < - 2 ^ 32 \/ 2 ^ 32 <= logIndex e ->
   result (ApiCallsRegistry.handleApiCallProved e) s = inl Overflow) /\
  ((forall a, value <$> parameters e !! 3%nat <> Some (EthAddress a)) ->
   exists err, result (ApiCallsRegistry.handleApiCallProved e) s = inl err) /\
  (forall c rq rs em,
   - 2 ^ 32 <= logIndex e < 2 ^ 32 -> decodes_to e c rq rs em ->
   exists ent,
     store_get "ApiCallProved"
       (toHexString (hash (transaction e) ++ fromI32 (logIndex e)))
       (exec (ApiCallsRegistry.handleApiCallProved e) s) = Some ent /\
     dom ent = ApiCallProved_fields /\
     ent !! "callId"%string = Some (VString c) /\
     ent !! "requestHash"%string = Some (VString rq) /\
     ent !! "responseHash"%string = Some (VString rs) /\
     ent !! "emitter"%string = Some (VBytes em)).
Proof.
  assert (Hiff : result (ApiCallsRegistry.handleApiCallProved e) s = inr tt <->
                 - 2 ^ 32 <= logIndex e < 2 ^ 32 /\
                 exists c rq rs em, decodes_to e c rq rs em).
  { rewrite (result_written _ _ ApiCallsRegistryFacts.registry_handle_written).
    split.
    - intros [[k ent] Hw]. now apply (registry_written_decodes_inv e k ent).
    - intros [Hl (c & rq & rs & em & Hd)].
      rewrite (registry_written_decodes e c rq rs em Hl Hd). eauto. }
  split; [exact Hiff|]. split; [|split; [|split]].
  - intros err.
    apply (stopped_unchanged _ _ ApiCallsRegistryFacts.registry_handle_written).
  - intros Hl. unfold result.
    rewrite ApiCallsRegistryFacts.registry_handle_unfold.
    unfold ApiCallsRegistry.entityId. now rewrite (toI32_overflow _ Hl).
  - intros Hno.
    destruct (result (ApiCallsRegistry.handleApiCallProved e) s) as [err|[]] eqn:Hr;
      [eauto|].
    destruct (proj1 Hiff eq_refl) as [_ (c & rq & rs & em & _ & _ & _ & D3)].
    now apply Hno in D3.
  - intros c rq rs em Hl Hd.
    pose proof (registry_written_decodes e c rq rs em Hl Hd) as Hw.
    destruct (registry_entityOf_fields e
                (hash (transaction e) ++ fromI32 (logIndex e)) c rq rs em)
      as (_ & F1 & F2 & F3 & F4 & _).
    eexists. split; [|split].
    + apply (exec_lookup _ _ ApiCallsRegistryFacts.registry_handle_written
               _ _ _ _ Hw).
    + apply registry_entityOf_dom.
    + auto.
Qed.

Lemma runtime_stops_undecodable_witness :
  (exists err,
     result (ApiCallsRegistry.handleApiCallProved Examples.truncatedEvent)
       Examples.otherStore = inl err /\
     exec (ApiCallsRegistry.handleApiCallProved Examples.truncatedEvent)
       Examples.otherStore = Examples.otherStore) /\
  (result (ApiCallsRegistry.handleApiCallProved Examples.hugeIndexEvent)
     Examples.otherStore = inl Overflow /\
   exec (ApiCallsRegistry.handleApiCallProved Examples.hugeIndexEvent)
     Examples.otherStore = Examples.otherStore) /\
  (result (ApiCallsRegistry.handleApiCallProved Examples.wrappingIndexEvent) ∅ =
     inr tt /\
   exists ent,
     store_get "ApiCallProved"
       "0xaaaaaaaaaaaaaaaaaaaaaaaaaaaaaaaaaaaaaaaaaaaaaaaaaaaaaaaaaaaaaa0100000080"
       (exec (ApiCallsRegistry.handleApiCallProved Examples.wrappingIndexEvent) ∅) =
       Some ent /\
     dom ent = ApiCallProved_fields /\
     ent !! "callId"%string = Some (VString "call-1") /\
     ent !! "requestHash"%string = Some (VString "req-1") /\
     ent !! "responseHash"%string = Some (VString "res-1") /\
     ent !! "emitter"%string = Some (VBytes Examples.testEmitter)) /\
  (result (ApiCallsRegistry.handleApiCallProved Examples.negativeIndexEvent) ∅ =
     inr tt /\
   exists ent,
     store_get "ApiCallProved"
       "0xaaaaaaaaaaaaaaaaaaaaaaaaaaaaaaaaaaaaaaaaaaaaaaaaaaaaaaaaaaaaaa0100000000"
       (exec (ApiCallsRegistry.handleApiCallProved Examples.negativeIndexEvent) ∅) =
       Some ent /\
     dom ent = ApiCallProved_fields /\
     ent !! "callId"%string = Some (VString "call-1") /\
     ent !! "requestHash"%string = Some (VString "req-1") /\
     ent !! "responseHash"%string = Some (VString "res-1") /\
     ent !! "emitter"%string = Some (VBytes Examples.testEmitter)).
Proof.
  destruct (runtime_stops_undecodable Examples.truncatedEvent Examples.otherStore)
    as (_ & T2 & _ & T4 & _).
  destruct (runtime_stops_undecodable Examples.hugeIndexEvent Examples.otherStore)
    as (_ & U2 & U3 & _).
  destruct (runtime_stops_undecodable Examples.wrappingIndexEvent ∅)
    as (W1 & _ & _ & _ & W5).
  destruct (runtime_stops_undecodable Examples.negativeIndexEvent ∅)
    as (N1 & _ & _ & _ & N5).
  assert (Hhuge : logIndex Examples.hugeIndexEvent < - 2 ^ 32 \/
                  2 ^ 32 <= logIndex Examples.hugeIndexEvent)
    by (right; simpl; lia).
  assert (Hwrap : - 2 ^ 32 <= logIndex Examples.wrappingIndexEvent < 2 ^ 32)
    by (simpl; lia).
  assert (Hneg : - 2 ^ 32 <= logIndex Examples.negativeIndexEvent < 2 ^ 32)
    by (simpl; lia).
  split; [|split; [|split]].
  - destruct T4 as [err Herr]; [intros a; discriminate|].
    exists err. split; [exact Herr|]. exact (T2 err Herr).
  - split; [exact (U3 Hhuge)|]. exact (U2 Overflow (U3 Hhuge)).
  - split.
    + apply W1. split; [exact Hwrap|].
      exists "call-1"%string, "req-1"%string, "res-1"%string, Examples.testEmitter.
      repeat split.
    + apply (W5 "call-1"%string "req-1"%string "res-1"%string Examples.testEmitter Hwrap).
      repeat split.
  - split.
    + apply N1. split; [exact Hneg|].
      exists "call-1"%string, "req-1"%string, "res-1"%string, Examples.testEmitter.
      repeat split.
    + apply (N5 "call-1"%string "req-1"%string "res-1"%string Examples.testEmitter Hneg).
      repeat split.
Defined.

(** ** A feed of events *)

Section Feed.

Variable handler : Event -> Handler unit.
Variable written : Event -> option ((string * string) * Entity).
Hypothesis handler_written : forall (e : Event) (s : Store),
  match written e with
  | Some (k, ent) => handler e s = (inr tt, <[k := ent]> s)
  | None => exists err, handler e s = (inl err, s)
  end.

Lemma processAll_cons (e : Event) (es : list Event) (s : Store) :
  processAll handler (e :: es) s = processAll handler es (exec (handler e) s).
Proof. reflexivity. Qed.

Lemma processAll_app (es1 es2 : list Event) (s : Store) :
  processAll handler (es1 ++ es2) s =
    processAll handler es2 (processAll handler es1 s).
Proof. apply foldl_app. Qed.


Lemma exec_from_events (pre : list Event) (e : Event) (s : Store) :
  from_events written pre s -> from_events written (pre ++ [e]) (exec (handler e) s).
Proof.
  intros Hf k x. rewrite (exec_written handler written handler_written).
  destruct (written e) as [[k' ent]|] eqn:Hw.
  - destruct (decide (k' = k)) as [->|Hne].
    + rewrite lookup_insert_eq. intros [= <-]. exists e. split; [|exact Hw].
      apply elem_of_app. right. apply list_elem_of_singleton. reflexivity.
    + rewrite lookup_insert_ne by assumption. intros Hk.
      destruct (Hf k x Hk) as (e0 & He0 & Hw0). exists e0. split; [|exact Hw0].
      apply elem_of_app. now left.
  - intros Hk. destruct (Hf k x Hk) as (e0 & He0 & Hw0). exists e0.
    split; [|exact Hw0]. apply elem_of_app. now left.
Qed.

Lemma exec_grows (pre : list Event) (e : Event) (s : Store) :
  from_events written pre s -> coherent written (pre ++ [e]) -> s ⊆ exec (handler e) s.
Proof.
  intros Hf Hc. rewrite (exec_written handler written handler_written).
  destruct (written e) as [[k ent]|] eqn:Hw; [|reflexivity].
  destruct (s !! k) as [x|] eqn:Hk.
  - destruct (Hf k x Hk) as (e0 & He0 & Hw0).
    assert (x = ent) as ->.
    { apply (Hc e0 e k); [apply elem_of_app; now left| |assumption|assumption].
      apply elem_of_app. right. apply list_elem_of_singleton. reflexivity. }
    now rewrite insert_id.
  - now apply insert_subseteq.
Qed.

Lemma coherent_prefix (es1 es2 : list Event) : coherent written (es1 ++ es2) -> coherent written es1.
Proof.
  intros Hc e1 e2 k x1 x2 H1 H2. apply (Hc e1 e2 k x1 x2); apply elem_of_app; now left.
Qed.

(** Under coherence a feed only adds entries: what is in the store stays
    as it is. *)
Lemma processAll_grows (pre es : list Event) (s : Store) :
  from_events written pre s -> coherent written (pre ++ es) -> s ⊆ processAll handler es s.
Proof.
  revert pre s. induction es as [|e es IH]; intros pre s Hf Hc; [reflexivity|].
  rewrite processAll_cons.
  assert (Hc' : coherent written ((pre ++ [e]) ++ es)) by now rewrite <- app_assoc.
  transitivity (exec (handler e) s).
  - apply (exec_grows pre); [assumption|]. now apply coherent_prefix in Hc'.
  - apply (IH (pre ++ [e])); [|assumption]. now apply exec_from_events.
Qed.

Lemma processAll_from_events (es : list Event) :
  from_events written es (processAll handler es ∅).
Proof.
  assert (H : forall pre s, from_events written pre s ->
            from_events written (pre ++ es) (processAll handler es s)).
  { induction es as [|e es IH]; intros pre s Hf.
    - now rewrite app_nil_r.
    - rewrite processAll_cons.
      replace (pre ++ e :: es) with ((pre ++ [e]) ++ es) by now rewrite <- app_assoc.
      apply IH. now apply exec_from_events. }
  apply (H [] ∅). intros k x Hk. now rewrite lookup_empty in Hk.
Qed.

Lemma processAll_dom (es : list Event) (s : Store) :
  dom (processAll handler es s) = dom s ∪ list_to_set (written_keys written es).
Proof.
  revert s. induction es as [|e es IH]; intros s.
  - cbn. now rewrite (right_id_L ∅ (∪)).
  - rewrite processAll_cons, IH, (exec_written handler written handler_written).
    change (written_keys written (e :: es))
      with (match fst <$> written e with
            | Some k => k :: written_keys written es
            | None => written_keys written es
            end).
    destruct (written e) as [[k ent]|]; cbn [fmap option_fmap option_map fst].
    + rewrite dom_insert_L, list_to_set_cons, !(assoc_L (∪)).
      now rewrite (comm_L (∪) {[k]} (dom s)).
    + reflexivity.
Qed.

End Feed.

(** ** The life of an entity *)

Section Lifecycle.

Lemma size_list_to_set_remove_dups (l : list (string * string)) :
  size (list_to_set l : gset (string * string)) = length (remove_dups l).
Proof.
  rewrite <- (size_list_to_set (C := gset (string * string)) (remove_dups l))
    by apply NoDup_remove_dups.
  f_equal. apply set_eq. intros x.
  now rewrite !elem_of_list_to_set, elem_of_remove_dups.
Qed.

Lemma length_remove_dups_fmap {A B C : Type} `{EqDecision B, EqDecision C}
    (f : A -> B) (g : A -> C) (l : list A) :
  (forall x y, x ∈ l -> y ∈ l -> f x = f y <-> g x = g y) ->
  length (remove_dups (f <$> l)) = length (remove_dups (g <$> l)).
Proof.
  induction l as [|x l IH]; intros Hfg; [reflexivity|].
  assert (IH' : length (remove_dups (f <$> l)) = length (remove_dups (g <$> l))).
  { apply IH. intros y z Hy Hz. apply Hfg; now apply elem_of_cons; right. }
  assert (Hin : f x ∈ f <$> l <-> g x ∈ g <$> l).
  { rewrite !list_elem_of_fmap. split; intros (y & Hy & Hl); exists y;
      (split; [|assumption]);
      apply (Hfg x y); try assumption;
      try (apply elem_of_cons; now left); apply elem_of_cons; now right. }
  rewrite !fmap_cons. cbn [remove_dups].
  destruct (decide_rel elem_of (f x) (f <$> l)) as [Hf|Hf];
    destruct (decide_rel elem_of (g x) (g <$> l)) as [Hg|Hg]; cbn [length].
  - exact IH'.
  - now apply Hin in Hf.
  - now apply Hin in Hg.
  - now rewrite IH'.
Qed.

Lemma registry_written_wf (e : Event) :
  well_formed e ->
  exists ent, ApiCallsRegistry.written e = Some (registry_key e, ent).
Proof.
  intros [Hl (c & rq & rs & em & Hp)].
  assert (Hid := ApiCallsRegistryFacts.registry_entityId_fits e ltac:(lia)).
  eexists. apply (ApiCallsRegistryFacts.registry_written_ok _ _ _ _ _ _ Hid Hp).
Qed.

Lemma registry_key_eventKey (e1 e2 : Event) :
  well_formed e1 -> well_formed e2 ->
  registry_key e1 = registry_key e2 <-> eventKey e1 = eventKey e2.
Proof.
  intros [H1 _] [H2 _]. unfold registry_key, eventKey. split.
  - unfold ApiCallsRegistry.storeKey, toHexString. intros [= E].
    apply hex_digits_inj, app_inj_2 in E as [Eh Ei]; [|reflexivity].
    apply fromI32_inj in Ei; [|lia|lia]. now rewrite Eh, Ei.
  - now intros [= -> ->].
Qed.


Lemma registry_coherent (es : list Event) :
  Forall well_formed es -> replay_consistent es ->
  coherent ApiCallsRegistry.written es.
Proof.
  intros Hwf Hrc e1 e2 k x1 x2 H1 H2 W1 W2.
  rewrite Forall_forall in Hwf.
  destruct (registry_written_wf e1 (Hwf e1 H1)) as [y1 K1].
  destruct (registry_written_wf e2 (Hwf e2 H2)) as [y2 K2].
  assert (E : e1 = e2).
  { apply Hrc; try assumption.
    apply (registry_key_eventKey e1 e2); [now apply Hwf|now apply Hwf|congruence]. }
  subst e2. congruence.
Qed.


End Lifecycle.



(** ** Remarks *)

(** [store.set] overwrites: a second log with the transaction hash and log
    index of a stored entity but other parameters replaces the entity. Such
    a log is no replay, and [replay_consistent] rules it out. *)
Remark conflicting_event_overwrites :
  let s1 := exec (ApiCallsRegistry.handleApiCallProved Examples.scenarioEvent) ∅ in
  let s2 := exec (ApiCallsRegistry.handleApiCallProved Examples.scenarioEvent') s1 in
  registry_key Examples.scenarioEvent = registry_key Examples.scenarioEvent' /\
  (exists ent, s1 !! registry_key Examples.scenarioEvent = Some ent /\
     ent !! "callId"%string = Some (VString "call-1")) /\
  (exists ent, s2 !! registry_key Examples.scenarioEvent = Some ent /\
     ent !! "callId"%string = Some (VString "call-2")) /\
  entityCount "ApiCallProved" s2 = 1%nat.
Proof.
  intros s1 s2.
  assert (W1 := ApiCallsRegistryFacts.registry_written_ok Examples.scenarioEvent
            _ "call-1" "req-1" "res-1" Examples.testEmitter eq_refl eq_refl).
  assert (W2 := ApiCallsRegistryFacts.registry_written_ok Examples.scenarioEvent'
            _ "call-2" "req-2" "res-2" Examples.defaultAddress eq_refl eq_refl).
  split; [reflexivity|]. split; [|split].
  - eexists. split.
    + apply (exec_lookup _ _ ApiCallsRegistryFacts.registry_handle_written _ _ _ _ W1).
    + apply registry_entityOf_fields.
  - eexists. split.
    + apply (exec_lookup _ _ ApiCallsRegistryFacts.registry_handle_written _ _ _ _ W2).
    + apply registry_entityOf_fields.
  - unfold s2.
    rewrite (entityCount_exec _ _ ApiCallsRegistryFacts.registry_handle_written
               _ _ _ _ _ W2).
    unfold s1.
    rewrite (exec_lookup _ _ ApiCallsRegistryFacts.registry_handle_written _ _ _ _ W1).
    rewrite (entityCount_exec _ _ ApiCallsRegistryFacts.registry_handle_written
               _ _ _ _ _ W1).
    reflexivity.
Qed.

(** The id that the test file looks its entity up under, the mock address
    followed by [-1], is not an id the handler makes: after the test event
    is handled there is one entity, and none under that id. *)
Remark test_file_id_not_stored :
  let s := exec (ApiCallsRegistry.handleApiCallProved Examples.testEvent) ∅ in
  entityCount "ApiCallProved" s = 1%nat /\
  store_get "ApiCallProved" "0xa16081f360e3847006db660bae1c6d1b2e17ec2a-1" s = None /\
  is_Some (store_get "ApiCallProved"
             "0xa16081f360e3847006db660bae1c6d1b2e17ec2a01000000" s).
Proof.
  intros s.
  assert (W := ApiCallsRegistryFacts.registry_written_ok Examples.testEvent
            _ "Example string value" "Example string value" "Example string value"
            Examples.testEmitter eq_refl eq_refl).
  unfold s, store_get.
  rewrite (exec_written _ _ ApiCallsRegistryFacts.registry_handle_written), W.
  unfold ApiCallsRegistry.storeKey. split; [|split].
  - now rewrite entityCount_insert.
  - now rewrite lookup_insert_ne.
  - eexists. apply lookup_insert_eq.
Qed.

(** ** More on handlers that write one entry *)

Section SingleWriteMore.

Variable handler : Event -> Handler unit.
Variable written : Event -> option ((string * string) * Entity).
Hypothesis handler_written : forall (e : Event) (s : Store),
  match written e with
  | Some (k, ent) => handler e s = (inr tt, <[k := ent]> s)
  | None => exists err, handler e s = (inl err, s)
  end.

Lemma entityCount_insert_other (ty ty' id : string) (ent : Entity) (s : Store) :
  ty' <> ty -> entityCount ty (<[(ty', id) := ent]> s) = entityCount ty s.
Proof.
  intros Hne. unfold entityCount. f_equal.
  apply map_filter_insert_not. intros y Hy. now apply Hne.
Qed.

Lemma entityCount_exec_bounds (e : Event) (s : Store) (ty : string) :
  (entityCount ty s <= entityCount ty (exec (handler e) s) <= S (entityCount ty s))%nat.
Proof.
  rewrite (exec_written handler written handler_written).
  destruct (written e) as [[[ty' id] ent]|]; [|lia].
  destruct (decide (ty' = ty)) as [->|Hne].
  - rewrite entityCount_insert. destruct (s !! (ty, id)); lia.
  - rewrite entityCount_insert_other by assumption. lia.
Qed.

Lemma processAll_snoc (es : list Event) (e : Event) (s : Store) :
  processAll handler (es ++ [e]) s = exec (handler e) (processAll handler es s).
Proof. now rewrite (processAll_app handler). Qed.

(** Over a coherent feed the store is the set of the entries its events
    write. *)
Lemma processAll_lookup_iff (es : list Event) (k : string * string) (x : Entity) :
  coherent written es ->
  processAll handler es ∅ !! k = Some x <->
  exists e, e ∈ es /\ written e = Some (k, x).
Proof.
  intros Hc. split.
  - apply (processAll_from_events handler written handler_written).
  - intros (e & He & Hw).
    apply list_elem_of_split in He as (l1 & l2 & ->).
    replace (l1 ++ e :: l2) with ((l1 ++ [e]) ++ l2) in * by now rewrite <- app_assoc.
    rewrite (processAll_app handler).
    eapply lookup_weaken;
      [|apply (processAll_grows handler written handler_written (l1 ++ [e]));
        [apply (processAll_from_events handler written handler_written)|exact Hc]].
    rewrite processAll_snoc.
    apply (exec_lookup handler written handler_written _ _ _ _ Hw).
Qed.

Lemma coherent_same_events (es es' : list Event) :
  (forall e, e ∈ es <-> e ∈ es') -> coherent written es -> coherent written es'.
Proof.
  intros Hm Hc e1 e2 k x1 x2 H1 H2. apply (Hc e1 e2 k x1 x2); now apply Hm.
Qed.

Lemma processAll_same_events (es es' : list Event) :
  coherent written es -> (forall e, e ∈ es <-> e ∈ es') ->
  processAll handler es ∅ = processAll handler es' ∅.
Proof.
  intros Hc Hm. pose proof (coherent_same_events es es' Hm Hc) as Hc'.
  apply map_eq. intros k. apply option_eq. intros x.
  rewrite (processAll_lookup_iff es k x Hc), (processAll_lookup_iff es' k x Hc').
  split; intros (e & He & Hw); exists e; (split; [now apply Hm|exact Hw]).
Qed.

End SingleWriteMore.

(** ** Hexadecimal ids *)

Lemma hex_digit_is_hex (n : N) : is_hex_digit (hex_digit n) = true.
Proof.
  unfold hex_digit. generalize (N.to_nat n). intros k.
  do 16 (destruct k as [|k]; [reflexivity|]). destruct k; reflexivity.
Qed.

Lemma all_hex_hex_digits (b : Bytes) : all_hex (hex_digits b) = true.
Proof.
  induction b as [|x b IH]; [reflexivity|].
  cbn [hex_digits all_hex]. now rewrite !hex_digit_is_hex, IH.
Qed.

Lemma length_hex_digits (b : Bytes) :
  String.length (hex_digits b) = (2 * length b)%nat.
Proof.
  induction b as [|x b IH]; [reflexivity|].
  cbn [hex_digits String.length length]. rewrite IH. lia.
Qed.

Lemma registry_entityId_length (e : Event) (id : Bytes) :
  ApiCallsRegistry.entityId e = inr id ->
  length id = (length (hash (transaction e)) + 4)%nat.
Proof.
  unfold ApiCallsRegistry.entityId, and_then.
  destruct (toI32 (logIndex e)) as [?|i]; [discriminate|].
  intros [= <-]. apply length_concatI32.
Qed.

(** X8. A run of the handler of src/api-calls-registry.ts is either stopped,
    with the store as it was, or writes one entry of type ApiCallProved
    whose id is the string 0x followed by hexadecimal digits only, two for
    each byte of the transaction hash and eight more. *)
Theorem registry_key_shape (e : Event) (s : Store) :
  (exists err,
     result (ApiCallsRegistry.handleApiCallProved e) s = inl err /\
     exec (ApiCallsRegistry.handleApiCallProved e) s = s) \/
  (result (ApiCallsRegistry.handleApiCallProved e) s = inr tt /\
   exists (digits : string) (ent : Entity),
     exec (ApiCallsRegistry.handleApiCallProved e) s =
       <[("ApiCallProved"%string, "0x" +:+ digits) := ent]> s /\
     all_hex digits = true /\
     String.length digits = (2 * (length (hash (transaction e)) + 4))%nat).
Proof.
  pose proof (ApiCallsRegistryFacts.registry_handle_written e s) as H.
  destruct (ApiCallsRegistry.written e) as [[k ent]|] eqn:Hw.
  - right. unfold result, exec. rewrite H. split; [reflexivity|].
    apply ApiCallsRegistryFacts.registry_written_inv in Hw
      as (id & c & rq & rs & em & Hid & -> & _).
    exists (hex_digits id), ent. split; [reflexivity|]. split.
    + apply all_hex_hex_digits.
    + rewrite length_hex_digits. now rewrite (registry_entityId_length e id Hid).
  - left. destruct H as [err H]. exists err. unfold result, exec. now rewrite H.
Qed.

(** ** The test file *)

Lemma entityCount_empty (ty : string) : entityCount ty ∅ = 0%nat.
Proof. unfold entityCount. now rewrite map_filter_empty, map_size_empty. Qed.

Lemma test_id_not_written (e : Event) (ent : Entity) :
  ApiCallsRegistry.written e <>
    Some (("ApiCallProved", "0xa16081f360e3847006db660bae1c6d1b2e17ec2a-1")%string, ent).
Proof.
  intros Hw.
  apply ApiCallsRegistryFacts.registry_written_inv in Hw
    as (id & c & rq & rs & em & _ & Hk & _).
  unfold ApiCallsRegistry.storeKey, toHexString, toHex in Hk.
  injection Hk as Hk. change ("" +:+ hex_digits id) with (hex_digits id) in Hk.
  pose proof (all_hex_hex_digits id) as Hh. rewrite <- Hk in Hh. discriminate Hh.
Qed.

Lemma beforeAll_built (mock e : Event) (s : Store) :
  Utils.createApiCallProvedEvent mock "Example string value" "Example string value"
    "Example string value" Tests.emitter = inr e ->
  Tests.beforeAll mock s = ApiCallsRegistry.handleApiCallProved e s.
Proof. intros Hb. unfold Tests.beforeAll, bind, lift. now rewrite Hb. Qed.

(** X9. The test of the test file cannot pass, whatever event
    [newMockEvent()] returns: the id it looks the entity up under, the mock
    address followed by -1, is no id the handler writes, so its field
    assertions find no entity. The [afterAll] hook leaves the store empty. *)
Theorem test_as_written_fails (newMockEvent : Event) :
  (Tests.describe newMockEvent).1 = false /\
  (Tests.describe newMockEvent).2 = ∅.
Proof.
  destruct (createApiCallProvedEvent_built newMockEvent "Example string value"
              "Example string value" "Example string value" Tests.emitter eq_refl)
    as (e & Hb & _).
  unfold Tests.describe. rewrite (beforeAll_built newMockEvent e ∅ Hb).
  pose proof (ApiCallsRegistryFacts.registry_handle_written e ∅) as H.
  destruct (ApiCallsRegistry.written e) as [[k ent]|] eqn:Hw.
  - rewrite H. split; [|reflexivity]. cbn [fst].
    assert (Hf : forall field expected,
      Tests.assert_fieldEquals "ApiCallProved"
        "0xa16081f360e3847006db660bae1c6d1b2e17ec2a-1" field expected
        (<[k := ent]> ∅) = false).
    { intros field expected. unfold Tests.assert_fieldEquals, store_get.
      rewrite lookup_insert_ne; [now rewrite lookup_empty|].
      intros ->. now apply (test_id_not_written e ent). }
    unfold Tests.test_created_and_stored. rewrite !Hf.
    now rewrite !andb_false_r.
  - destruct H as [err ->]. split; reflexivity.
Qed.

(** X1. The builder, the handler and the assertions together. For an
    emitter that has not 20 bytes [createApiCallProvedEvent] is stopped and
    there is no event to handle. For an emitter of 20 bytes and a mock event
    with a log index in the 32-bit range it returns an event, and after that
    event is handled on an empty store there is one ApiCallProved entity, and
    under the hexadecimal string of the mock's transaction hash and log
    index its callId, requestHash, responseHash and emitter are the values
    given to the builder. *)
Theorem built_event_assertions (mock : Event) (c rq rs : string) (em : Address) :
  (length em <> 20%nat ->
   Utils.createApiCallProvedEvent mock c rq rs em = inl AssertionFailed) /\
  (length em = 20%nat ->
   0 <= logIndex mock < 2 ^ 31 ->
   exists e : Event,
     Utils.createApiCallProvedEvent mock c rq rs em = inr e /\
     let s := exec (ApiCallsRegistry.handleApiCallProved e) ∅ in
     let id := toHexString (hash (transaction mock) ++ fromI32 (logIndex mock)) in
     Tests.assert_entityCount "ApiCallProved" 1 s = true /\
     Tests.assert_fieldEquals "ApiCallProved" id "callId" c s = true /\
     Tests.assert_fieldEquals "ApiCallProved" id "requestHash" rq s = true /\
     Tests.assert_fieldEquals "ApiCallProved" id "responseHash" rs s = true /\
     Tests.assert_fieldEquals "ApiCallProved" id "emitter" (toHexString em) s = true).
Proof.
  split; [apply createApiCallProvedEvent_stopped|].
  intros Hem Hl.
  destruct (createApiCallProvedEvent_built mock c rq rs em Hem)
    as (e & Hb & Hp & Hli & Htx & _).
  exists e. split; [exact Hb|]. intros s id.
  assert (Hid : ApiCallsRegistry.entityId e =
                inr (hash (transaction mock) ++ fromI32 (logIndex mock))).
  { rewrite <- Hli, <- Htx.
    apply (ApiCallsRegistryFacts.registry_entityId_fits e). rewrite Hli. lia. }
  pose proof (ApiCallsRegistryFacts.registry_written_ok e _ c rq rs em Hid Hp) as Hw.
  assert (Hs : s = <[ApiCallsRegistry.storeKey
                       (hash (transaction mock) ++ fromI32 (logIndex mock)) :=
                     ApiCallsRegistry.entityOf e
                       (hash (transaction mock) ++ fromI32 (logIndex mock))
                       c rq rs em]> ∅).
  { unfold s.
    now rewrite (exec_written _ _ ApiCallsRegistryFacts.registry_handle_written), Hw. }
  destruct (registry_entityOf_fields e
              (hash (transaction mock) ++ fromI32 (logIndex mock)) c rq rs em)
    as (_ & F1 & F2 & F3 & F4 & _).
  rewrite Hs. unfold ApiCallsRegistry.storeKey. fold id. split.
  - unfold Tests.assert_entityCount.
    rewrite entityCount_insert, lookup_empty, entityCount_empty.
    now apply bool_decide_eq_true.
  - unfold Tests.assert_fieldEquals, store_get. rewrite !lookup_insert_eq.
    rewrite F1, F2, F3, F4. cbn [Tests.Value_display].
    repeat split; now apply bool_decide_eq_true.
Qed.

Lemma built_event_assertions_witness :
  Utils.createApiCallProvedEvent Examples.newMockEvent
    "Example string value" "Example string value" "Example string value"
    (repeat x00 18 ++ [x01]) = inl AssertionFailed /\
  exists e : Event,
    Utils.createApiCallProvedEvent Examples.newMockEvent
      "Example string value" "Example string value" "Example string value"
      Examples.testEmitter = inr e /\
    Tests.assert_entityCount "ApiCallProved" 1
      (exec (ApiCallsRegistry.handleApiCallProved e) ∅) = true /\
    Tests.assert_fieldEquals "ApiCallProved"
      "0xa16081f360e3847006db660bae1c6d1b2e17ec2a01000000" "callId"
      "Example string value"
      (exec (ApiCallsRegistry.handleApiCallProved e) ∅) = true /\
    Tests.assert_fieldEquals "ApiCallProved"
      "0xa16081f360e3847006db660bae1c6d1b2e17ec2a01000000" "requestHash"
      "Example string value"
      (exec (ApiCallsRegistry.handleApiCallProved e) ∅) = true /\
    Tests.assert_fieldEquals "ApiCallProved"
      "0xa16081f360e3847006db660bae1c6d1b2e17ec2a01000000" "responseHash"
      "Example string value"
      (exec (ApiCallsRegistry.handleApiCallProved e) ∅) = true /\
    Tests.assert_fieldEquals "ApiCallProved"
      "0xa16081f360e3847006db660bae1c6d1b2e17ec2a01000000" "emitter"
      "0x0000000000000000000000000000000000000001"
      (exec (ApiCallsRegistry.handleApiCallProved e) ∅) = true.
Proof.
  split.
  - apply (built_event_assertions Examples.newMockEvent
             "Example string value" "Example string value" "Example string value"
             (repeat x00 18 ++ [x01])).
    discriminate.
  - apply (built_event_assertions Examples.newMockEvent
             "Example string value" "Example string value" "Example string value"
             Examples.testEmitter).
    + reflexivity.
    + simpl. lia.
Defined.

(** ** The handler of subgraph/src/mapping.ts, further *)

(** X2. The handler of subgraph/src/mapping.ts takes an event with the
    four parameters whatever its log index is: the run finishes and stores,
    under type ApiCall and the id made of the hexadecimal hash, a colon and
    the decimal log index, an entity with exactly the fields id, callId,
    requestHash, responseHash, emitter, txHash, blockNumber and timestamp,
    each the event's value. *)
Theorem mapping_stored_fields (e : Event) (s : Store)
    (callId requestHash responseHash : string) (emitter : Address) :
  has_params e callId requestHash responseHash emitter ->
  result (Mapping.handleApiCallProved e) s = inr tt /\
  exists ent : Entity,
    store_get "ApiCall"
      (toHex (hash (transaction e)) +:+ ":" +:+ BigInt_toString (logIndex e))
      (exec (Mapping.handleApiCallProved e) s) = Some ent /\
    dom ent = ApiCall_fields /\
    ent !! "id"%string =
      Some (VString (toHex (hash (transaction e)) +:+ ":" +:+
                     BigInt_toString (logIndex e))) /\
    ent !! "callId"%string = Some (VString callId) /\
    ent !! "requestHash"%string = Some (VString requestHash) /\
    ent !! "responseHash"%string = Some (VString responseHash) /\
    ent !! "emitter"%string = Some (VBytes emitter) /\
    ent !! "txHash"%string = Some (VBytes (hash (transaction e))) /\
    ent !! "blockNumber"%string = Some (VBigInt (number (block e))) /\
    ent !! "timestamp"%string = Some (VBigInt (timestamp (block e))).
Proof.
  intros Hp.
  pose proof (MappingFacts.mapping_written_ok _ _ _ _ _ Hp) as Hw.
  split.
  - apply (result_written _ _ MappingFacts.mapping_handle_written). rewrite Hw. eauto.
  - eexists. split; [|split].
    + apply (exec_lookup _ _ MappingFacts.mapping_handle_written _ _ _ _ Hw).
    + apply mapping_entityOf_dom.
    + apply (mapping_entityOf_fields e (Mapping.entityId e)).
Qed.

Lemma mapping_stored_fields_witness :
  result (Mapping.handleApiCallProved Examples.hugeIndexEvent) ∅ = inr tt /\
  exists ent : Entity,
    store_get "ApiCall"
      "0xaaaaaaaaaaaaaaaaaaaaaaaaaaaaaaaaaaaaaaaaaaaaaaaaaaaaaaaaaaaaaa01:4294967296"
      (exec (Mapping.handleApiCallProved Examples.hugeIndexEvent) ∅) = Some ent /\
    dom ent = ApiCall_fields /\
    ent !! "id"%string =
      Some (VString
        "0xaaaaaaaaaaaaaaaaaaaaaaaaaaaaaaaaaaaaaaaaaaaaaaaaaaaaaaaaaaaaaa01:4294967296") /\
    ent !! "callId"%string = Some (VString "call-1") /\
    ent !! "requestHash"%string = Some (VString "req-1") /\
    ent !! "responseHash"%string = Some (VString "res-1") /\
    ent !! "emitter"%string = Some (VBytes Examples.testEmitter) /\
    ent !! "txHash"%string = Some (VBytes (repeat xaa 31 ++ [x01])) /\
    ent !! "blockNumber"%string = Some (VBigInt 100) /\
    ent !! "timestamp"%string = Some (VBigInt 1700000000).
Proof.
  apply (mapping_stored_fields Examples.hugeIndexEvent ∅
           "call-1" "req-1" "res-1" Examples.testEmitter).
  reflexivity.
Defined.

(** X3. Every event that the handler of src/api-calls-registry.ts handles
    to the end is handled to the end by the handler of
    subgraph/src/mapping.ts, on any store: the first stops wherever the
    second stops, and in addition on a log index beyond 32 bits. *)
Theorem registry_accepts_mapping_accepts (e : Event) (s s' : Store) :
  result (ApiCallsRegistry.handleApiCallProved e) s = inr tt ->
  result (Mapping.handleApiCallProved e) s' = inr tt.
Proof.
  intros Hr.
  apply (result_written _ _ ApiCallsRegistryFacts.registry_handle_written) in Hr
    as [[k ent] Hw].
  apply ApiCallsRegistryFacts.registry_written_inv in Hw
    as (id & c & rq & rs & em & _ & _ & _ & H1 & H2 & H3 & H4).
  apply (result_written _ _ MappingFacts.mapping_handle_written).
  unfold Mapping.written. rewrite H1, H2, H3, H4. eauto.
Qed.

Lemma registry_accepts_mapping_accepts_witness :
  result (ApiCallsRegistry.handleApiCallProved Examples.scenarioEvent) ∅ = inr tt /\
  result (Mapping.handleApiCallProved Examples.scenarioEvent) Examples.otherStore =
    inr tt /\
  result (ApiCallsRegistry.handleApiCallProved Examples.hugeIndexEvent) ∅ =
    inl Overflow /\
  result (Mapping.handleApiCallProved Examples.hugeIndexEvent) ∅ = inr tt.
Proof.
  split; [reflexivity|]. split; [|split; reflexivity].
  apply (registry_accepts_mapping_accepts Examples.scenarioEvent ∅ Examples.otherStore).
  reflexivity.
Defined.

(** X10. Neither handler reads the store: for each event, either every run
    is stopped with the same failure and leaves the store as it was, or
    every run finishes and writes the same single entry, whatever the store
    holds. *)
Theorem handlers_ignore_store (e : Event) :
  ((exists err, forall s,
      ApiCallsRegistry.handleApiCallProved e s = (inl err, s)) \/
   (exists k ent, forall s,
      ApiCallsRegistry.handleApiCallProved e s = (inr tt, <[k := ent]> s))) /\
  ((exists err, forall s,
      Mapping.handleApiCallProved e s = (inl err, s)) \/
   (exists k ent, forall s,
      Mapping.handleApiCallProved e s = (inr tt, <[k := ent]> s))).
Proof.
  split.
  - destruct (ApiCallsRegistry.entityId e) as [err|id] eqn:H0;
      [|destruct (params_callId e) as [err|c] eqn:H1;
        [|destruct (params_requestHash e) as [err|rq] eqn:H2;
          [|destruct (params_responseHash e) as [err|rs] eqn:H3;
            [|destruct (params_emitter e) as [err|em] eqn:H4]]]];
      [left; exists err|left; exists err|left; exists err|left; exists err
      |left; exists err|right; eexists _, _];
      intros s; rewrite ApiCallsRegistryFacts.registry_handle_unfold, H0;
      try rewrite H1; try rewrite H2; try rewrite H3; try rewrite H4; reflexivity.
  - unfold Mapping.handleApiCallProved, bind, lift.
    destruct (params_callId e) as [err|c]; [left; exists err; reflexivity|].
    destruct (params_requestHash e) as [err|rq]; [left; exists err; reflexivity|].
    destruct (params_responseHash e) as [err|rs]; [left; exists err; reflexivity|].
    destruct (params_emitter e) as [err|em]; [left; exists err; reflexivity|].
    right. eexists _, _. intros s. apply MappingFacts.mapping_save_entityOf.
Qed.

(** X4. A run of either handler never lowers the number of entities of any
    type and raises it by one at most; the handler of
    src/api-calls-registry.ts changes the count of no type but
    ApiCallProved, the handler of subgraph/src/mapping.ts that of no type
    but ApiCall. *)
Theorem entityCount_step (e : Event) (s : Store) (ty : string) :
  (entityCount ty s <= entityCount ty (exec (ApiCallsRegistry.handleApiCallProved e) s)
     <= S (entityCount ty s))%nat /\
  (entityCount ty s <= entityCount ty (exec (Mapping.handleApiCallProved e) s)
     <= S (entityCount ty s))%nat /\
  (ty <> "ApiCallProved"%string ->
   entityCount ty (exec (ApiCallsRegistry.handleApiCallProved e) s) = entityCount ty s) /\
  (ty <> "ApiCall"%string ->
   entityCount ty (exec (Mapping.handleApiCallProved e) s) = entityCount ty s).
Proof.
  split; [|split; [|split]].
  - apply (entityCount_exec_bounds _ _ ApiCallsRegistryFacts.registry_handle_written).
  - apply (entityCount_exec_bounds _ _ MappingFacts.mapping_handle_written).
  - intros Hne.
    rewrite (exec_written _ _ ApiCallsRegistryFacts.registry_handle_written).
    destruct (ApiCallsRegistry.written e) as [[k ent]|] eqn:Hw; [|reflexivity].
    apply ApiCallsRegistryFacts.registry_written_inv in Hw
      as (id & c & rq & rs & em & _ & -> & _).
    apply entityCount_insert_other. congruence.
  - intros Hne.
    rewrite (exec_written _ _ MappingFacts.mapping_handle_written).
    destruct (Mapping.written e) as [[k ent]|] eqn:Hw; [|reflexivity].
    apply MappingFacts.mapping_written_inv in Hw as (c & rq & rs & em & -> & _).
    apply entityCount_insert_other. congruence.
Qed.

Lemma entityCount_step_witness :
  entityCount "ApiCall"
    (exec (ApiCallsRegistry.handleApiCallProved Examples.scenarioEvent)
       Examples.otherStore) = entityCount "ApiCall" Examples.otherStore /\
  entityCount "ApiCallProved"
    (exec (Mapping.handleApiCallProved Examples.scenarioEvent)
       Examples.otherStore) = entityCount "ApiCallProved" Examples.otherStore.
Proof.
  split.
  - apply (entityCount_step Examples.scenarioEvent Examples.otherStore "ApiCall").
    discriminate.
  - apply (entityCount_step Examples.scenarioEvent Examples.otherStore "ApiCallProved").
    discriminate.
Defined.

(** X5. The two handlers commute: handling one event with the one and
    another event with the other gives the same store in either order. *)
Theorem handlers_commute (e1 e2 : Event) (s : Store) :
  exec (ApiCallsRegistry.handleApiCallProved e1)
    (exec (Mapping.handleApiCallProved e2) s) =
  exec (Mapping.handleApiCallProved e2)
    (exec (ApiCallsRegistry.handleApiCallProved e1) s).
Proof.
  rewrite !(exec_written _ _ ApiCallsRegistryFacts.registry_handle_written).
  rewrite !(exec_written _ _ MappingFacts.mapping_handle_written).
  destruct (ApiCallsRegistry.written e1) as [[k1 x1]|] eqn:W1;
    destruct (Mapping.written e2) as [[k2 x2]|] eqn:W2; try reflexivity.
  apply ApiCallsRegistryFacts.registry_written_inv in W1
    as (id & c & rq & rs & em & _ & -> & _).
  apply MappingFacts.mapping_written_inv in W2 as (c' & rq' & rs' & em' & -> & _).
  apply insert_insert_ne. discriminate.
Qed.

(** ** Feeds, reordered and redelivered *)

(** X6. Delivery order and redelivery do not matter to the handler of
    src/api-calls-registry.ts: two feeds of well-formed events with
    consistent replays that hold the same events, in any order and any
    number of times, leave the same store when handled from the empty
    store. *)
Theorem registry_feed_order_free (es es' : list Event) :
  Forall well_formed es ->
  replay_consistent es ->
  (forall e, e ∈ es <-> e ∈ es') ->
  processAll ApiCallsRegistry.handleApiCallProved es ∅ =
    processAll ApiCallsRegistry.handleApiCallProved es' ∅.
Proof.
  intros Hwf Hrc Hm.
  apply (processAll_same_events _ _ ApiCallsRegistryFacts.registry_handle_written);
    [|exact Hm].
  now apply registry_coherent.
Qed.

Lemma registry_feed_order_free_witness :
  processAll ApiCallsRegistry.handleApiCallProved
    [Examples.scenarioEvent; Examples.nextLogEvent; Examples.scenarioEvent] ∅ =
  processAll ApiCallsRegistry.handleApiCallProved
    [Examples.nextLogEvent; Examples.scenarioEvent] ∅.
Proof.
  apply registry_feed_order_free.
  - repeat (apply Forall_cons_2;
      [ split; [simpl; lia|];
        exists "call-1"%string, "req-1"%string, "res-1"%string, Examples.testEmitter;
        reflexivity | ]).
    apply Forall_nil_2.
  - intros e1 e2 M1 M2 Hk.
    repeat (apply elem_of_cons in M1 as [->|M1]);
      repeat (apply elem_of_cons in M2 as [->|M2]);
      try reflexivity; try discriminate Hk;
      try (now apply elem_of_nil in M1); now apply elem_of_nil in M2.
  - intros e. rewrite !elem_of_cons, !elem_of_nil. tauto.
Defined.

Section MappingLifecycle.

Lemma mapping_written_all (e : Event) :
  has_all_params e -> exists ent, Mapping.written e = Some (mapping_key e, ent).
Proof.
  intros (c & rq & rs & em & Hp). eexists.
  apply (MappingFacts.mapping_written_ok _ _ _ _ _ Hp).
Qed.

Lemma mapping_key_eventKey (e1 e2 : Event) :
  mapping_key e1 = mapping_key e2 <-> eventKey e1 = eventKey e2.
Proof.
  unfold mapping_key, Mapping.storeKey, eventKey. split.
  - intros E.
    assert (E' : Mapping.entityId e1 = Mapping.entityId e2) by congruence.
    apply Mapping_entityId_inj in E' as [-> ->]. reflexivity.
  - intros [= Hh Hl]. unfold Mapping.entityId. now rewrite Hh, Hl.
Qed.

Lemma mapping_coherent (es : list Event) :
  replay_consistent es -> coherent Mapping.written es.
Proof.
  intros Hrc e1 e2 k x1 x2 H1 H2 W1 W2.
  assert (E : e1 = e2).
  { apply Hrc; try assumption. apply mapping_key_eventKey.
    apply MappingFacts.mapping_written_inv in W1 as (? & ? & ? & ? & K1 & _).
    apply MappingFacts.mapping_written_inv in W2 as (? & ? & ? & ? & K2 & _).
    unfold mapping_key. congruence. }
  subst e2. congruence.
Qed.

Lemma mapping_written_keys (es : list Event) :
  Forall has_all_params es ->
  written_keys Mapping.written es = mapping_key <$> es.
Proof.
  induction 1 as [|e es He _ IH]; [reflexivity|].
  change (written_keys Mapping.written (e :: es))
    with (match fst <$> Mapping.written e with
          | Some k => k :: written_keys Mapping.written es
          | None => written_keys Mapping.written es
          end).
  destruct (mapping_written_all e He) as [ent ->]. now rewrite IH.
Qed.

Lemma mapping_entityCount (es : list Event) :
  entityCount "ApiCall" (processAll Mapping.handleApiCallProved es ∅) =
  size (processAll Mapping.handleApiCallProved es ∅).
Proof.
  unfold entityCount. f_equal. apply map_filter_id. intros k x Hk.
  destruct (processAll_from_events _ _ MappingFacts.mapping_handle_written
              es k x Hk) as (e & _ & Hw).
  apply MappingFacts.mapping_written_inv in Hw as (c & rq & rs & em & -> & _).
  reflexivity.
Qed.

End MappingLifecycle.

(** X7. The life of an ApiCall entity: over a feed of events that have
    their four parameters, with consistent replays and log indices of any
    size, the store of the handler of subgraph/src/mapping.ts only grows
    from the empty store, it holds one ApiCall entity for each distinct pair
    of transaction hash and log index, and it is the same for every feed
    that holds the same events. *)
Theorem mapping_entity_lifecycle (es1 es2 es' : list Event) :
  Forall has_all_params (es1 ++ es2) ->
  replay_consistent (es1 ++ es2) ->
  processAll Mapping.handleApiCallProved es1 ∅ ⊆
    processAll Mapping.handleApiCallProved (es1 ++ es2) ∅ /\
  entityCount "ApiCall"
    (processAll Mapping.handleApiCallProved (es1 ++ es2) ∅) =
    length (remove_dups (eventKey <$> (es1 ++ es2))) /\
  ((forall e, e ∈ es1 ++ es2 <-> e ∈ es') ->
   processAll Mapping.handleApiCallProved (es1 ++ es2) ∅ =
     processAll Mapping.handleApiCallProved es' ∅).
Proof.
  intros Hp Hrc. pose proof (mapping_coherent _ Hrc) as Hc.
  split; [|split].
  - rewrite (processAll_app Mapping.handleApiCallProved).
    apply (processAll_grows _ _ MappingFacts.mapping_handle_written es1);
      [|exact Hc].
    apply (processAll_from_events _ _ MappingFacts.mapping_handle_written).
  - rewrite mapping_entityCount, <- size_dom.
    rewrite (processAll_dom _ _ MappingFacts.mapping_handle_written).
    rewrite dom_empty_L, (left_id_L ∅ (∪)), mapping_written_keys by assumption.
    rewrite size_list_to_set_remove_dups.
    apply length_remove_dups_fmap. intros x y _ _. apply mapping_key_eventKey.
  - intros Hm.
    now apply (processAll_same_events _ _ MappingFacts.mapping_handle_written).
Qed.

Lemma mapping_entity_lifecycle_witness :
  processAll Mapping.handleApiCallProved
    [Examples.scenarioEvent; Examples.hugeIndexEvent] ∅ ⊆
    processAll Mapping.handleApiCallProved
      ([Examples.scenarioEvent; Examples.hugeIndexEvent] ++ [Examples.scenarioEvent]) ∅ /\
  entityCount "ApiCall"
    (processAll Mapping.handleApiCallProved
       ([Examples.scenarioEvent; Examples.hugeIndexEvent] ++ [Examples.scenarioEvent])
       ∅) = 2%nat /\
  processAll Mapping.handleApiCallProved
    ([Examples.scenarioEvent; Examples.hugeIndexEvent] ++ [Examples.scenarioEvent]) ∅ =
  processAll Mapping.handleApiCallProved
    [Examples.hugeIndexEvent; Examples.scenarioEvent] ∅.
Proof.
  destruct (mapping_entity_lifecycle
              [Examples.scenarioEvent; Examples.hugeIndexEvent]
              [Examples.scenarioEvent]
              [Examples.hugeIndexEvent; Examples.scenarioEvent])
    as (H1 & H2 & H3).
  - cbn [app].
    repeat (apply Forall_cons_2;
      [ exists "call-1"%string, "req-1"%string, "res-1"%string, Examples.testEmitter;
        reflexivity | ]).
    apply Forall_nil_2.
  - intros e1 e2 M1 M2 Hk. cbn [app] in M1, M2.
    repeat (apply elem_of_cons in M1 as [->|M1]);
      repeat (apply elem_of_cons in M2 as [->|M2]);
      try reflexivity; try discriminate Hk;
      try (now apply elem_of_nil in M1); now apply elem_of_nil in M2.
  - split; [exact H1|]. split; [rewrite H2; reflexivity|].
    apply H3. intros e. cbn [app]. rewrite !elem_of_cons, !elem_of_nil. tauto.
Defined.
